(** * Display list of the VBIT teletext inserter (displaylist.c)

    A shallow embedding of the node pool, the page array and the page
    scan of [displaylist.c], and the properties of its specification.

    The serial RAM is a byte store addressed by integers; the two
    file-level variables [sFreeList] and [sDisplayList] are threaded
    explicitly through every function.  [displaylist.h] is not among the
    sources, so its macros and the layout of [DISPLAYNODE] are section
    variables, constrained by [header_ok]. *)

From Stdlib Require Import String Ascii ZArith List Lia Bool Permutation.
Import ListNotations.
Open Scope Z_scope.

(** ** Machine integers *)

(** AVR-GCC: [uint8_t] and [uint16_t] conversions wrap. *)
Definition uint8 (x : Z) : Z := x mod 256.
Definition uint16 (x : Z) : Z := x mod 65536.

(** ** Serial RAM *)

(** One byte per address.  In sequential mode a transfer walks through
    consecutive addresses starting from the one set by
    [SetSPIRamAddress]; what the chip does when a transfer runs over its
    last address is not modelled, and [header_ok] below keeps the page
    array and the pool inside the 16 bit address range. *)
Definition SPIRam := Z -> Z.

Fixpoint WriteSPIRam (ram : SPIRam) (addr : Z) (data : list Z) : SPIRam :=
  match data with
  | [] => ram
  | b :: rest =>
      WriteSPIRam (fun a => if a =? addr then b else ram a) (addr + 1) rest
  end.

Fixpoint ReadSPIRam (ram : SPIRam) (addr : Z) (len : nat) : list Z :=
  match len with
  | O => []
  | S len' => ram addr :: ReadSPIRam ram (addr + 1) len'
  end.

(** ** Data *)

(** [NODEPTR] is a 16 bit index: it is handed to [SetSPIRamAddress] in
    the same position as the [uint16_t] cell addresses.  The XMega is
    little endian. *)
Definition sizeof_NODEPTR : Z := 2.

Definition ptr_bytes (v : Z) : list Z := [v mod 256; (v / 256) mod 256].

Definition bytes_ptr (l : list Z) : Z :=
  match l with
  | [lo; hi] => uint8 lo + 256 * uint8 hi
  | _ => 0
  end.

Record DISPLAYNODE : Set := mkNode {
  pageindex : Z;   (* uint16_t: record number in pages.idx *)
  next : Z;        (* NODEPTR *)
  subpage : Z      (* uint8_t: 00..99, or FREENODE / NULLNODE *)
}.

Definition wf_node (n : DISPLAYNODE) : Prop :=
  0 <= pageindex n < 65536 /\ 0 <= next n < 65536 /\ 0 <= subpage n < 256.

(** The part of [PAGE] that the display list reads. *)
Module Page.
Record PAGE : Set := mkPage { mag : Z; page : Z; subpage : Z }.
End Page.
Definition PAGE : Set := Page.PAGE.

Record PAGEINDEXRECORD : Set := mkIxRec {
  seekptr : Z;     (* offset of the page in pages.all *)
  pagesize : Z     (* its length in bytes *)
}.

(** The serial RAM together with the two static variables of the file. *)
Record State : Type := mkState {
  ram : SPIRam;
  sFreeList : Z;
  sDisplayList : Z
}.

Definition set_ram (r : SPIRam) (s : State) : State :=
  mkState r (sFreeList s) (sDisplayList s).

Definition set_sFreeList (v : Z) (s : State) : State :=
  mkState (ram s) v (sDisplayList s).

(** ** FatFs, as far as [ScanPageList] uses it *)

(** [pages.all] is a string with a read position; [f_lseek] in read mode
    does not move past the end of the file. *)
Record FIL : Set := mkFIL { content : string; fptr : nat }.

Definition f_lseek (f : FIL) (ofs : Z) : FIL :=
  mkFIL (content f) (Nat.min (Z.to_nat ofs) (String.length (content f))).

Fixpoint drop (n : nat) (s : string) : string :=
  match n, s with
  | O, _ => s
  | S n', String _ s' => drop n' s'
  | S _, EmptyString => EmptyString
  end.

(** Characters of the next line: at most [room] of them, the newline
    included, which ends the line. *)
Fixpoint take_line (room : nat) (s : string) : string :=
  match room, s with
  | S room', String c s' =>
      if Ascii.eqb c "010"%char then String c EmptyString
      else String c (take_line room' s')
  | _, _ => EmptyString
  end.

(** [f_gets(buff, len, fp)]: reads up to [len - 1] characters, stops
    after a newline, and returns NULL when nothing could be read. *)
Definition f_gets (len : nat) (f : FIL) : option string * FIL :=
  let line := take_line (len - 1) (drop (fptr f) (content f)) in
  match line with
  | EmptyString => (None, f)
  | _ => (Some line, mkFIL (content f) (fptr f + String.length line))
  end.

(** ** A small board *)

(** One choice of what displaylist.h leaves open, used to run the code:
    a pool of two nodes behind the page array, a packed little endian
    node of five bytes, and a parser for header lines of the form
    [PN,mppss] (mag, page in hex, subpage). *)
Module Small.

Definition MAXNODES : Z := 2.
Definition PAGEARRAYSIZE : Z := 4096.
Definition NULLPTR : Z := 65535.
Definition NULLNODE : Z := 254.
Definition FREENODE : Z := 255.
Definition sizeof_DISPLAYNODE : Z := 5.

Definition node_bytes (n : DISPLAYNODE) : list Z :=
  ptr_bytes (pageindex n) ++ ptr_bytes (next n) ++ [subpage n mod 256].

Definition bytes_node (l : list Z) : DISPLAYNODE :=
  match l with
  | [a; b; c; d; e] => mkNode (bytes_ptr [a; b]) (bytes_ptr [c; d]) (uint8 e)
  | _ => mkNode 0 0 0
  end.

Definition digit (c : option ascii) : Z :=
  match c with
  | None => 0
  | Some c =>
      let n := Z.of_nat (nat_of_ascii c) in
      if (48 <=? n) && (n <=? 57) then n - 48
      else if (65 <=? n) && (n <=? 70) then n - 55
      else 0
  end.

Definition ParseLine (p : PAGE) (str : option string) : PAGE :=
  match str with
  | None => p
  | Some line =>
      if String.prefix "PN," line
      then Page.mkPage (digit (String.get 3 line))
             (16 * digit (String.get 4 line) + digit (String.get 5 line))
             (10 * digit (String.get 6 line) + digit (String.get 7 line))
      else p
  end.

Definition nl : string := String "010"%char EmptyString.

(** A serial RAM of zeros and a page that was never parsed. *)
Definition blank : State := mkState (fun _ => 0) 0 0.
Definition page0 : PAGE := Page.mkPage 0 0 0.

End Small.

Section DisplayList.

(** ** What displaylist.h provides *)

Variable MAXNODES : Z.           (* number of slots in the node pool *)
Variable PAGEARRAYSIZE : Z.      (* bytes of the page array *)
Variable NULLPTR : Z.            (* NODEPTR that refers to no node *)
Variable NULLNODE : Z.           (* subpage value of the list terminator *)
Variable FREENODE : Z.           (* subpage value of a node in the free list *)
Variable sizeof_DISPLAYNODE : Z.
Variable node_bytes : DISPLAYNODE -> list Z.   (* image of a node in RAM *)
Variable bytes_node : list Z -> DISPLAYNODE.

(** The parser of page.c: updates the page from one line of text. *)
Variable ParseLine : PAGE -> option string -> PAGE.

(** ** Node pointers of the page array *)

Definition SetNodePtr (nodeptr addr : Z) (s : State) : State :=
  set_ram (WriteSPIRam (ram s) (uint16 addr) (ptr_bytes (uint16 nodeptr))) s.

Definition GetNodePtr (addr : Z) (s : State) : Z :=
  bytes_ptr (ReadSPIRam (ram s) (uint16 addr) (Z.to_nat sizeof_NODEPTR)).

(** ** Nodes *)

(** [i=i*sizeof(DISPLAYNODE)+PAGEARRAYSIZE], computed in a [NODEPTR]. *)
Definition node_addr (i : Z) : Z :=
  uint16 (uint16 i * sizeof_DISPLAYNODE + PAGEARRAYSIZE).

Definition SetNode (node : DISPLAYNODE) (i : Z) (s : State) : State :=
  set_ram (WriteSPIRam (ram s) (node_addr i) (node_bytes node)) s.

Definition GetNode (i : Z) (s : State) : DISPLAYNODE :=
  bytes_node (ReadSPIRam (ram s) (node_addr i) (Z.to_nat sizeof_DISPLAYNODE)).

(** ** The free list *)

(** The test that sends [NewNode] into its "out of nodes" branch. *)
Definition out_of_nodes (s : State) : bool :=
  subpage (GetNode (sFreeList s) s) =? NULLNODE.

(** Grab a node from the free list.  The out-of-nodes branch only prints
    a message; the head is returned in both branches. *)
Definition NewNode (s : State) : Z * State :=
  let ix := sFreeList s in
  let node := GetNode (sFreeList s) s in
  if subpage node =? NULLNODE
  then (ix, s)
  else (ix, set_sFreeList (next node) s).

Definition ReturnToFreeList (i : Z) (s : State) : State :=
  let node := mkNode 0 (sFreeList s) FREENODE in
  set_sFreeList (uint16 i) (SetNode node i s).

(** [for (i=MAXNODES-1;i>=0;i--) ReturnToFreeList(i);]
    The loop makes MAXNODES rounds, which is the [n] that
    [MakeFreeList] passes. *)
Fixpoint free_loop (n : nat) (i : Z) (s : State) : State :=
  match n with
  | O => s
  | S n' =>
      if 0 <=? i then free_loop n' (i - 1) (ReturnToFreeList i s) else s
  end.

(** [for (i=0;i<PAGEARRAYSIZE;i+=sizeof(NODEPTR)) SetNodePtr(NULLPTR,i);]
    The loop makes fewer than PAGEARRAYSIZE rounds. *)
Fixpoint clear_loop (n : nat) (i : Z) (s : State) : State :=
  match n with
  | O => s
  | S n' =>
      if i <? PAGEARRAYSIZE
      then clear_loop n' (i + sizeof_NODEPTR) (SetNodePtr NULLPTR i s)
      else s
  end.

Definition MakeFreeList (s : State) : State :=
  let s1 := set_sFreeList 0 s in
  let s2 := SetNode (mkNode 0 0 NULLNODE) 0 s1 in
  let s3 := free_loop (Z.to_nat MAXNODES) (MAXNODES - 1) s2 in
  clear_loop (Z.to_nat PAGEARRAYSIZE) 0 s3.

(** ** The page array *)

(** [mag=(mag-1) & 0x07; cellAddress=((mag<<8)+page)*sizeof(NODEPTR);]
    on the [uint8_t] parameters of [LinkPage]. *)
Definition cellIndex (mag page : Z) : Z :=
  Z.shiftl (Z.land (uint8 mag - 1) 7) 8 + uint8 page.

Definition cellAddress (mag page : Z) : Z :=
  uint16 (cellIndex mag page * sizeof_NODEPTR).

(** The read [np=GetNodePtr(&cellAddress)] of [LinkPage]. *)
Definition Lookup (mag page : Z) (s : State) : Z :=
  GetNodePtr (cellAddress mag page) s.

(** The write [SetNodePtr(newnodeptr,cellAddress)] of [LinkPage]. *)
Definition Bind (mag page nodeptr : Z) (s : State) : State :=
  SetNodePtr nodeptr (cellAddress mag page) s.

(** [np==NULLPTR || true] always holds, so only the first branch of the
    conditional is left. *)
Definition LinkPage (mag page subpg ix : Z) (s : State) : State :=
  let '(newnodeptr, s1) := NewNode s in
  let s2 := Bind mag page newnodeptr s1 in
  SetNode (mkNode (uint16 ix) NULLPTR (uint8 subpg)) newnodeptr s2.

(** ** The page scan *)

Definition MAXLINE : nat := 80.

(** [p->mag=9;] *)
Definition set_mag (m : Z) (p : PAGE) : PAGE :=
  Page.mkPage m (Page.page p) (Page.subpage p).

(** [while (p->mag==9) { str=f_gets(line,MAXLINE,&pagefileFIL);
    ParseLine(p,str); }].  Nothing in the loop bounds the number of
    rounds, so the model carries fuel and yields [None] when it runs
    out. *)
Fixpoint header_loop (fuel : nat) (p : PAGE) (pagefileFIL : FIL)
  : option (PAGE * FIL) :=
  match fuel with
  | O => None
  | S fuel' =>
      if Page.mag p =? 9 then
        let '(str, f') := f_gets MAXLINE pagefileFIL in
        header_loop fuel' (ParseLine p str) f'
      else Some (p, pagefileFIL)
  end.

(** [for (ix=0;!f_eof(&listFIL);ix++)]: the index file is the list of
    the records that are still to be read. *)
Fixpoint page_loop (fuel : nat) (listFIL : list PAGEINDEXRECORD) (ix : Z)
    (p : PAGE) (pagefileFIL : FIL) (s : State) : option State :=
  match listFIL with
  | [] => Some s
  | ixRec :: rest =>
      match header_loop fuel (set_mag 9 p)
              (f_lseek pagefileFIL (seekptr ixRec)) with
      | None => None
      | Some (p', f') =>
          page_loop fuel rest (uint16 (ix + 1)) p' f'
            (LinkPage (Page.mag p') (Page.page p') (Page.subpage p') ix s)
      end
  end.

(** A file that cannot be opened is [None].  The result is the return
    code with the final state, or [None] when a header loop ran out of
    fuel. *)
Definition ScanPageList (fuel : nat) (pages_idx : option (list PAGEINDEXRECORD))
    (pages_all : option string) (p : PAGE) (s : State) : option (Z * State) :=
  match pages_idx with
  | None => Some (1, s)
  | Some listFIL =>
      match pages_all with
      | None => Some (1, s)
      | Some all =>
          match page_loop fuel listFIL 0 p (mkFIL all 0) s with
          | None => None
          | Some s' => Some (0, s')
          end
      end
  end.

Definition InitDisplayList (fuel : nat) (pages_idx : option (list PAGEINDEXRECORD))
    (pages_all : option string) (p : PAGE) (s : State) : option (Z * State) :=
  let s1 := mkState (ram s) NULLPTR NULLPTR in
  ScanPageList fuel pages_idx pages_all p (MakeFreeList s1).

(** ** Assumptions on displaylist.h *)

(** The pool has at least one slot and its count fits the [int] loop
    counter of [MakeFreeList] (16 bits on the AVR); the page array is the
    8 x 256 table of node pointers; the pool follows it and ends inside
    the 16 bit address space; [NULLPTR] is a [NODEPTR] that is not the
    index of a slot; the two marks are distinct bytes; a node occupies
    [sizeof(DISPLAYNODE)] bytes from which its three fields are read
    back, each within the range of its type. *)
Record header_ok : Prop := mkHeaderOk {
  hdr_maxnodes : 1 <= MAXNODES <= 32767;
  hdr_pagearray : PAGEARRAYSIZE = 8 * 256 * sizeof_NODEPTR;
  hdr_fits : PAGEARRAYSIZE + MAXNODES * sizeof_DISPLAYNODE <= 65536;
  hdr_nullptr : MAXNODES <= NULLPTR < 65536;
  hdr_nullnode : 0 <= NULLNODE < 256;
  hdr_freenode : 0 <= FREENODE < 256;
  hdr_marks : FREENODE <> NULLNODE;
  hdr_sizeof : forall n, Z.of_nat (length (node_bytes n)) = sizeof_DISPLAYNODE;
  hdr_layout : forall n, wf_node n -> bytes_node (node_bytes n) = n;
  hdr_fields : forall l, wf_node (bytes_node l)
}.

(** ** Notions used by the properties *)

(** The node reached from [i] by following [next] [n] times. *)
Fixpoint follow (n : nat) (i : Z) (s : State) : Z :=
  match n with
  | O => i
  | S n' => follow n' (next (GetNode i s)) s
  end.

(** The first [n] nodes on the way. *)
Fixpoint visited (n : nat) (i : Z) (s : State) : list Z :=
  match n with
  | O => []
  | S n' => i :: visited n' (next (GetNode i s)) s
  end.

(** [n] calls of [NewNode] in a row; for each call, whether it took the
    out-of-nodes branch and what it returned. *)
Fixpoint NewNode_calls (n : nat) (s : State) : list (bool * Z) * State :=
  match n with
  | O => ([], s)
  | S n' =>
      let flag := out_of_nodes s in
      let '(ix, s1) := NewNode s in
      let '(l, s2) := NewNode_calls n' s1 in
      ((flag, ix) :: l, s2)
  end.

(** The chain that starts at [h] runs through the nodes of [F], in this
    order, and each of them carries the free mark. *)
Fixpoint linked (s : State) (h : Z) (F : list Z) : Prop :=
  match F with
  | [] => True
  | f :: F' =>
      h = f /\ subpage (GetNode f s) = FREENODE /\
      linked s (next (GetNode f s)) F'
  end.

(** [i] is on the list that starts at [np] and ends with [NULLPTR]. *)
Inductive in_list (s : State) : Z -> Z -> Prop :=
| in_list_here : forall np, np <> NULLPTR -> in_list s np np
| in_list_later : forall np i,
    np <> NULLPTR -> in_list s (next (GetNode np s)) i -> in_list s np i.

(** The pool with free nodes [F] and nodes in use [A]: every slot is in
    exactly one of the two, a page array cell is empty or refers to a
    node in use that ends its list, and no two cells share a node. *)
Record pool_inv (s : State) (F A : list Z) : Prop := mkPoolInv {
  inv_head : 0 <= sFreeList s < 65536;
  inv_linked : linked s (sFreeList s) F;
  inv_nodup : NoDup (F ++ A);
  inv_range : forall x, In x (F ++ A) -> 0 <= x < MAXNODES;
  inv_count : Z.of_nat (length (F ++ A)) = MAXNODES;
  inv_cells : forall mag page,
      Lookup mag page s = NULLPTR \/
      (In (Lookup mag page s) A /\
       next (GetNode (Lookup mag page s) s) = NULLPTR);
  inv_shared : forall mag page mag' page',
      Lookup mag page s = Lookup mag' page' s ->
      Lookup mag page s <> NULLPTR ->
      cellIndex mag page = cellIndex mag' page'
}.

Arguments inv_head {s F A} _.
Arguments inv_linked {s F A} _.
Arguments inv_nodup {s F A} _.
Arguments inv_range {s F A} _ x _.
Arguments inv_count {s F A} _.
Arguments inv_cells {s F A} _ mag page.
Arguments inv_shared {s F A} _ mag page mag' page' _ _.

(** States reached from a formatted pool, with the nodes that were
    handed out and not given back.  A node is released only while it is
    in use and no cell refers to it; [room] says when a node may be
    asked for. *)
Inductive reachable (room : list Z -> Prop) : State -> list Z -> Prop :=
| reach_Format : forall s0, reachable room (MakeFreeList s0) []
| reach_Allocate : forall s A,
    reachable room s A -> room A ->
    reachable room (snd (NewNode s)) (fst (NewNode s) :: A)
| reach_Release : forall s A1 i A2,
    reachable room s (A1 ++ i :: A2) ->
    (forall mag page, Lookup mag page s <> i) ->
    reachable room (ReturnToFreeList i s) (A1 ++ A2)
| reach_LinkPage : forall s A mag page subpg ix,
    reachable room s A -> room A ->
    reachable room (LinkPage mag page subpg ix s) (fst (NewNode s) :: A).

Definition always (A : list Z) : Prop := True.

Definition not_exhausted (A : list Z) : Prop :=
  Z.of_nat (length A) < MAXNODES.

(** [j] times [LinkPage] for page 1/01. *)
Fixpoint relink (j : nat) (s : State) : State :=
  match j with
  | O => s
  | S j' => LinkPage 1 1 0 0 (relink j' s)
  end.

(** One round of the header loop, and [n] of them. *)
Definition parse_next (pf : PAGE * FIL) : PAGE * FIL :=
  let '(str, f') := f_gets MAXLINE (snd pf) in (ParseLine (fst pf) str, f').

Fixpoint parse_n (n : nat) (pf : PAGE * FIL) : PAGE * FIL :=
  match n with
  | O => pf
  | S n' => parse_n n' (parse_next pf)
  end.

(** The headers that the page scan hands to [LinkPage], record by
    record. *)
Fixpoint headers (fuel : nat) (listFIL : list PAGEINDEXRECORD) (p : PAGE)
    (pagefileFIL : FIL) : option (list PAGE) :=
  match listFIL with
  | [] => Some []
  | ixRec :: rest =>
      match header_loop fuel (set_mag 9 p)
              (f_lseek pagefileFIL (seekptr ixRec)) with
      | None => None
      | Some (p', f') =>
          match headers fuel rest p' f' with
          | None => None
          | Some hs => Some (p' :: hs)
          end
      end
  end.

(** The cell of a header. *)
Definition cell_of (h : PAGE) : Z := cellIndex (Page.mag h) (Page.page h).

Fixpoint link_all (hs : list PAGE) (ix : Z) (s : State) : State :=
  match hs with
  | [] => s
  | h :: rest =>
      link_all rest (uint16 (ix + 1))
        (LinkPage (Page.mag h) (Page.page h) (Page.subpage h) ix s)
  end.

(** A well-formed record: it starts inside [pages.all], and whatever the
    page held before, the lines read from its offset leave the mag at 9
    until, within the fuel, one line yields the mag and page of [key],
    a mag other than 9. *)
Definition key_at (fuel : nat) (all : string) (ixRec : PAGEINDEXRECORD)
    (key : Z * Z) : Prop :=
  0 <= seekptr ixRec <= Z.of_nat (String.length all) /\
  forall p, exists k,
    (k < fuel)%nat /\
    (forall j, (j < k)%nat ->
       Page.mag (fst (parse_n j (set_mag 9 p,
                                 mkFIL all (Z.to_nat (seekptr ixRec))))) = 9) /\
    Page.mag (fst (parse_n k (set_mag 9 p,
                              mkFIL all (Z.to_nat (seekptr ixRec))))) = fst key /\
    Page.page (fst (parse_n k (set_mag 9 p,
                               mkFIL all (Z.to_nat (seekptr ixRec))))) = snd key /\
    fst key <> 9.

(** ** The serial RAM *)

Lemma WriteSPIRam_outside : forall data r addr a,
  a < addr \/ addr + Z.of_nat (length data) <= a ->
  WriteSPIRam r addr data a = r a.
Proof.
  induction data as [|b rest IH]; intros r addr a H; simpl in *.
  - reflexivity.
  - rewrite IH by lia.
    destruct (a =? addr) eqn:E; [apply Z.eqb_eq in E; lia | reflexivity].
Qed.

Lemma ReadSPIRam_ext : forall len r1 r2 addr,
  (forall a, addr <= a < addr + Z.of_nat len -> r1 a = r2 a) ->
  ReadSPIRam r1 addr len = ReadSPIRam r2 addr len.
Proof.
  induction len as [|len IH]; intros r1 r2 addr H; simpl.
  - reflexivity.
  - f_equal; [apply H; lia | apply IH; intros a Ha; apply H; lia].
Qed.

Lemma ReadSPIRam_Write_same : forall data r addr,
  ReadSPIRam (WriteSPIRam r addr data) addr (length data) = data.
Proof.
  induction data as [|b rest IH]; intros r addr; simpl.
  - reflexivity.
  - f_equal; [|apply IH].
    rewrite WriteSPIRam_outside by lia.
    now rewrite Z.eqb_refl.
Qed.

Lemma ReadSPIRam_Write_apart : forall data r a1 a2 len,
  a2 + Z.of_nat len <= a1 \/ a1 + Z.of_nat (length data) <= a2 ->
  ReadSPIRam (WriteSPIRam r a1 data) a2 len = ReadSPIRam r a2 len.
Proof.
  intros data r a1 a2 len H. apply ReadSPIRam_ext.
  intros a Ha. apply WriteSPIRam_outside. lia.
Qed.

Lemma uint16_small : forall x, 0 <= x < 65536 -> uint16 x = x.
Proof. intros x H. unfold uint16. now apply Z.mod_small. Qed.

Lemma uint8_small : forall x, 0 <= x < 256 -> uint8 x = x.
Proof. intros x H. unfold uint8. now apply Z.mod_small. Qed.

Lemma uint16_range : forall x, 0 <= uint16 x < 65536.
Proof. intros x. unfold uint16. apply Z.mod_pos_bound. lia. Qed.

Lemma uint8_range : forall x, 0 <= uint8 x < 256.
Proof. intros x. unfold uint8. apply Z.mod_pos_bound. lia. Qed.

Lemma bytes_ptr_ptr_bytes : forall v,
  0 <= v < 65536 -> bytes_ptr (ptr_bytes v) = v.
Proof.
  intros v Hv. unfold bytes_ptr, ptr_bytes, uint8.
  rewrite !Z.mod_mod by lia.
  rewrite (Z.mod_small (v / 256)) by (split; [apply Z.div_pos | apply Z.div_lt_upper_bound]; lia).
  pose proof (Z.div_mod v 256). lia.
Qed.

Lemma bytes_ptr_range : forall l, 0 <= bytes_ptr l < 65536.
Proof.
  intros l. unfold bytes_ptr.
  destruct l as [|lo [|hi [|x l]]]; try lia.
  pose proof (uint8_range lo). pose proof (uint8_range hi). lia.
Qed.

(** ** Nodes and cells in the serial RAM *)

Hypothesis Hdr : header_ok.

Lemma sizeof_nonneg : 0 <= sizeof_DISPLAYNODE.
Proof. pose proof (hdr_sizeof Hdr (mkNode 0 0 0)). lia. Qed.

Lemma node_len : forall n, length (node_bytes n) = Z.to_nat sizeof_DISPLAYNODE.
Proof. intros n. rewrite <- (hdr_sizeof Hdr n). now rewrite Nat2Z.id. Qed.

Lemma node_addr_pool : forall i,
  0 <= i < MAXNODES ->
  node_addr i = i * sizeof_DISPLAYNODE + PAGEARRAYSIZE.
Proof.
  intros i Hi. unfold node_addr.
  pose proof (hdr_maxnodes Hdr). pose proof (hdr_fits Hdr).
  pose proof (hdr_pagearray Hdr). pose proof sizeof_nonneg.
  unfold sizeof_NODEPTR in *.
  rewrite (uint16_small i) by lia.
  apply uint16_small. nia.
Qed.

Lemma cellIndex_range : forall mag page, 0 <= cellIndex mag page < 2048.
Proof.
  intros mag page. unfold cellIndex.
  rewrite Z.shiftl_mul_pow2 by lia.
  change 7 with (Z.ones 3). rewrite Z.land_ones by lia.
  pose proof (Z.mod_pos_bound (uint8 mag - 1) (2 ^ 3)).
  pose proof (uint8_range page).
  change (2 ^ 3) with 8 in *. change (2 ^ 8) with 256. lia.
Qed.

Lemma cellAddress_eq : forall mag page,
  cellAddress mag page = 2 * cellIndex mag page.
Proof.
  intros mag page. unfold cellAddress, sizeof_NODEPTR.
  pose proof (cellIndex_range mag page).
  rewrite uint16_small; lia.
Qed.

Lemma GetNode_set_sFreeList : forall i v s,
  GetNode i (set_sFreeList v s) = GetNode i s.
Proof. reflexivity. Qed.

Lemma GetNodePtr_set_sFreeList : forall a v s,
  GetNodePtr a (set_sFreeList v s) = GetNodePtr a s.
Proof. reflexivity. Qed.

Lemma GetNode_SetNode_same : forall n i s,
  wf_node n -> GetNode i (SetNode n i s) = n.
Proof.
  intros n i s Hn. unfold GetNode, SetNode, set_ram; cbn [ram].
  rewrite <- (node_len n), ReadSPIRam_Write_same.
  now apply (hdr_layout Hdr).
Qed.

Lemma GetNode_SetNode_other : forall n i j s,
  0 <= i < MAXNODES -> 0 <= j < MAXNODES -> i <> j ->
  GetNode j (SetNode n i s) = GetNode j s.
Proof.
  intros n i j s Hi Hj Hij. unfold GetNode, SetNode, set_ram; cbn [ram].
  rewrite !node_addr_pool by assumption.
  rewrite ReadSPIRam_Write_apart; [reflexivity|].
  rewrite node_len, !Z2Nat.id by apply sizeof_nonneg.
  pose proof sizeof_nonneg. nia.
Qed.

Lemma GetNodePtr_SetNode : forall n i a s,
  0 <= i < MAXNODES -> 0 <= a -> a + 2 <= PAGEARRAYSIZE ->
  GetNodePtr a (SetNode n i s) = GetNodePtr a s.
Proof.
  intros n i a s Hi Ha1 Ha2. unfold GetNodePtr, SetNode, set_ram; cbn [ram].
  pose proof (hdr_pagearray Hdr). unfold sizeof_NODEPTR in *.
  rewrite node_addr_pool, (uint16_small a) by lia.
  rewrite ReadSPIRam_Write_apart; [reflexivity|].
  pose proof sizeof_nonneg. left. simpl. nia.
Qed.

Lemma GetNode_SetNodePtr : forall v a j s,
  0 <= j < MAXNODES -> 0 <= a -> a + 2 <= PAGEARRAYSIZE ->
  GetNode j (SetNodePtr v a s) = GetNode j s.
Proof.
  intros v a j s Hj Ha1 Ha2. unfold GetNode, SetNodePtr, set_ram; cbn [ram].
  pose proof (hdr_pagearray Hdr). unfold sizeof_NODEPTR in *.
  rewrite node_addr_pool, (uint16_small a) by lia.
  rewrite ReadSPIRam_Write_apart; [reflexivity|].
  pose proof sizeof_nonneg. right. simpl. nia.
Qed.

Lemma GetNodePtr_SetNodePtr_same : forall v a s,
  GetNodePtr a (SetNodePtr v a s) = uint16 v.
Proof.
  intros v a s. unfold GetNodePtr, SetNodePtr, set_ram; cbn [ram].
  change (Z.to_nat sizeof_NODEPTR) with (length (ptr_bytes (uint16 v))).
  rewrite ReadSPIRam_Write_same.
  apply bytes_ptr_ptr_bytes, uint16_range.
Qed.

Lemma GetNodePtr_SetNodePtr_other : forall v a b s,
  0 <= a < 65536 -> 0 <= b < 65536 -> a + 2 <= b \/ b + 2 <= a ->
  GetNodePtr b (SetNodePtr v a s) = GetNodePtr b s.
Proof.
  intros v a b s Ha Hb Hab. unfold GetNodePtr, SetNodePtr, set_ram; cbn [ram].
  rewrite (uint16_small a), (uint16_small b) by assumption.
  rewrite ReadSPIRam_Write_apart; [reflexivity|].
  unfold sizeof_NODEPTR, ptr_bytes; cbn [length]. lia.
Qed.

Lemma GetNodePtr_range : forall a s, 0 <= GetNodePtr a s < 65536.
Proof. intros a s. apply bytes_ptr_range. Qed.

Lemma GetNode_wf : forall i s, wf_node (GetNode i s).
Proof. intros i s. apply (hdr_fields Hdr). Qed.

(** Cells of the page array, by mag and page. *)

Lemma Lookup_SetNode : forall n i mag page s,
  0 <= i < MAXNODES ->
  Lookup mag page (SetNode n i s) = Lookup mag page s.
Proof.
  intros n i mag page s Hi. unfold Lookup.
  pose proof (cellIndex_range mag page).
  pose proof (hdr_pagearray Hdr). unfold sizeof_NODEPTR in *.
  rewrite cellAddress_eq. apply GetNodePtr_SetNode; lia.
Qed.

Lemma GetNode_Bind : forall mag page v j s,
  0 <= j < MAXNODES ->
  GetNode j (Bind mag page v s) = GetNode j s.
Proof.
  intros mag page v j s Hj. unfold Bind.
  pose proof (cellIndex_range mag page).
  pose proof (hdr_pagearray Hdr). unfold sizeof_NODEPTR in *.
  rewrite cellAddress_eq. apply GetNode_SetNodePtr; lia.
Qed.

Lemma Lookup_Bind_same : forall mag page v s,
  Lookup mag page (Bind mag page v s) = uint16 v.
Proof. intros. apply GetNodePtr_SetNodePtr_same. Qed.

Lemma Lookup_Bind_other : forall mag page mag' page' v s,
  cellIndex mag' page' <> cellIndex mag page ->
  Lookup mag' page' (Bind mag page v s) = Lookup mag' page' s.
Proof.
  intros mag page mag' page' v s Hne. unfold Lookup, Bind.
  pose proof (cellIndex_range mag page).
  pose proof (cellIndex_range mag' page').
  rewrite !cellAddress_eq.
  apply GetNodePtr_SetNodePtr_other; lia.
Qed.

(** ** The allocator *)

Lemma NewNode_fst : forall s, fst (NewNode s) = sFreeList s.
Proof. intros s. unfold NewNode. now destruct (_ =? _). Qed.

Lemma NewNode_ram : forall s, ram (snd (NewNode s)) = ram s.
Proof. intros s. unfold NewNode. now destruct (_ =? _). Qed.

Lemma NewNode_free : forall s,
  subpage (GetNode (sFreeList s) s) <> NULLNODE ->
  NewNode s = (sFreeList s, set_sFreeList (next (GetNode (sFreeList s) s)) s).
Proof.
  intros s H. unfold NewNode.
  destruct (_ =? _) eqn:E; [apply Z.eqb_eq in E; contradiction | reflexivity].
Qed.

Lemma follow_set_sFreeList : forall n i v s,
  follow n i (set_sFreeList v s) = follow n i s.
Proof. induction n as [|n IH]; intros; simpl; [reflexivity | apply IH]. Qed.

Lemma visited_set_sFreeList : forall n i v s,
  visited n i (set_sFreeList v s) = visited n i s.
Proof.
  induction n as [|n IH]; intros; simpl; [reflexivity | f_equal; apply IH].
Qed.

Lemma follow_add : forall n m i s,
  follow (n + m) i s = follow m (follow n i s) s.
Proof. induction n as [|n IH]; intros; simpl; [reflexivity | apply IH]. Qed.

Lemma visited_app : forall n m i s,
  visited (n + m) i s = visited n i s ++ visited m (follow n i s) s.
Proof.
  induction n as [|n IH]; intros; simpl; [reflexivity | f_equal; apply IH].
Qed.

(** Calls that never meet the terminator walk down the chain. *)
Lemma NewNode_calls_walk : forall n s,
  (forall k, (k < n)%nat ->
     subpage (GetNode (follow k (sFreeList s) s) s) <> NULLNODE) ->
  fst (NewNode_calls n s) = map (pair false) (visited n (sFreeList s) s) /\
  sFreeList (snd (NewNode_calls n s)) = follow n (sFreeList s) s /\
  ram (snd (NewNode_calls n s)) = ram s.
Proof.
  induction n as [|n IH]; intros s H.
  - simpl. auto.
  - assert (H0 : subpage (GetNode (sFreeList s) s) <> NULLNODE)
      by (apply (H O); lia).
    cbn [NewNode_calls]. unfold out_of_nodes.
    rewrite NewNode_free by assumption.
    destruct (subpage (GetNode (sFreeList s) s) =? NULLNODE) eqn:E;
      [apply Z.eqb_eq in E; contradiction|].
    set (s1 := set_sFreeList (next (GetNode (sFreeList s) s)) s).
    destruct (IH s1) as (L & Hd & R).
    { intros k Hk. unfold s1. cbn [sFreeList set_sFreeList].
      rewrite follow_set_sFreeList, GetNode_set_sFreeList.
      apply (H (S k)). lia. }
    destruct (NewNode_calls n s1) as [l s2]. cbn [fst snd] in *.
    rewrite L, Hd, R. unfold s1. cbn [sFreeList set_sFreeList ram].
    rewrite follow_set_sFreeList, visited_set_sFreeList. auto.
Qed.

Lemma ReturnToFreeList_head : forall i s,
  sFreeList (ReturnToFreeList i s) = uint16 i.
Proof. reflexivity. Qed.

Lemma ReturnToFreeList_same : forall i s,
  0 <= sFreeList s < 65536 ->
  GetNode i (ReturnToFreeList i s) = mkNode 0 (sFreeList s) FREENODE.
Proof.
  intros i s H. unfold ReturnToFreeList.
  rewrite GetNode_set_sFreeList. apply GetNode_SetNode_same.
  pose proof (hdr_freenode Hdr). unfold wf_node; simpl. lia.
Qed.

Lemma ReturnToFreeList_other : forall i j s,
  0 <= i < MAXNODES -> 0 <= j < MAXNODES -> i <> j ->
  GetNode j (ReturnToFreeList i s) = GetNode j s.
Proof.
  intros i j s Hi Hj Hij. unfold ReturnToFreeList.
  rewrite GetNode_set_sFreeList. now apply GetNode_SetNode_other.
Qed.

Lemma ReturnToFreeList_Lookup : forall i mag page s,
  0 <= i < MAXNODES ->
  Lookup mag page (ReturnToFreeList i s) = Lookup mag page s.
Proof.
  intros i mag page s Hi. unfold ReturnToFreeList.
  unfold Lookup. rewrite GetNodePtr_set_sFreeList.
  now apply Lookup_SetNode.
Qed.

(** ** Formatting *)

Lemma free_loop_spec : forall n s,
  Z.of_nat n <= MAXNODES -> 0 <= sFreeList s < 65536 ->
  sFreeList (free_loop n (Z.of_nat n - 1) s)
    = (if Nat.eqb n 0 then sFreeList s else 0) /\
  (forall j, 0 <= j < Z.of_nat n ->
     GetNode j (free_loop n (Z.of_nat n - 1) s)
       = mkNode 0 (if j =? Z.of_nat n - 1 then sFreeList s else j + 1)
           FREENODE) /\
  (forall j, Z.of_nat n <= j < MAXNODES ->
     GetNode j (free_loop n (Z.of_nat n - 1) s) = GetNode j s) /\
  (forall mag page,
     Lookup mag page (free_loop n (Z.of_nat n - 1) s) = Lookup mag page s).
Proof.
  induction n as [|n IH]; intros s Hn Hh.
  - simpl. repeat split; auto. intros j Hj. lia.
  - cbn [free_loop].
    replace (Z.of_nat (S n) - 1) with (Z.of_nat n) by lia.
    destruct (0 <=? Z.of_nat n) eqn:E; [|apply Z.leb_gt in E; lia].
    set (s1 := ReturnToFreeList (Z.of_nat n) s).
    pose proof (hdr_maxnodes Hdr) as HM.
    assert (Hs1 : sFreeList s1 = Z.of_nat n).
    { unfold s1. rewrite ReturnToFreeList_head. apply uint16_small. lia. }
    destruct (IH s1) as (A & B & C & D); [lia | rewrite Hs1; lia |].
    repeat split.
    + rewrite A, Hs1. destruct n; simpl; reflexivity.
    + intros j Hj.
      destruct (Z.eq_dec j (Z.of_nat n)) as [->|Hne].
      * rewrite C by lia. unfold s1. rewrite ReturnToFreeList_same by assumption.
        rewrite Z.eqb_refl. reflexivity.
      * rewrite B by lia. rewrite Hs1.
        destruct (j =? Z.of_nat n) eqn:E1; [apply Z.eqb_eq in E1; lia|].
        destruct (j =? Z.of_nat n - 1) eqn:E2; [apply Z.eqb_eq in E2|];
          f_equal; lia.
    + intros j Hj. rewrite C by lia. unfold s1.
      apply ReturnToFreeList_other; lia.
    + intros mag page. rewrite D. unfold s1.
      apply ReturnToFreeList_Lookup. lia.
Qed.

Lemma clear_loop_spec : forall n c s,
  0 <= c ->
  sFreeList (clear_loop n (2 * c) s) = sFreeList s /\
  (forall j, 0 <= j < MAXNODES ->
     GetNode j (clear_loop n (2 * c) s) = GetNode j s) /\
  (forall d, 0 <= d < c ->
     GetNodePtr (2 * d) (clear_loop n (2 * c) s) = GetNodePtr (2 * d) s) /\
  (forall d, c <= d < 2048 -> d < c + Z.of_nat n ->
     GetNodePtr (2 * d) (clear_loop n (2 * c) s) = NULLPTR).
Proof.
  pose proof (hdr_pagearray Hdr) as HP. unfold sizeof_NODEPTR in HP.
  pose proof (hdr_nullptr Hdr) as HN. pose proof (hdr_maxnodes Hdr) as HM.
  induction n as [|n IH]; intros c s Hc.
  - simpl. repeat split; auto. intros d H1 H2. lia.
  - cbn [clear_loop]. destruct (2 * c <? PAGEARRAYSIZE) eqn:E.
    + apply Z.ltb_lt in E.
      replace (2 * c + sizeof_NODEPTR) with (2 * (c + 1))
        by (unfold sizeof_NODEPTR; lia).
      set (s1 := SetNodePtr NULLPTR (2 * c) s).
      destruct (IH (c + 1) s1) as (A & B & C & D); [lia|].
      repeat split.
      * rewrite A. reflexivity.
      * intros j Hj. rewrite B by assumption. unfold s1.
        apply GetNode_SetNodePtr; lia.
      * intros d Hd. rewrite C by lia. unfold s1.
        apply GetNodePtr_SetNodePtr_other; lia.
      * intros d Hd1 Hd2.
        destruct (Z.eq_dec d c) as [->|Hne].
        -- rewrite C by lia. unfold s1.
           rewrite GetNodePtr_SetNodePtr_same. apply uint16_small. lia.
        -- apply D; lia.
    + apply Z.ltb_ge in E. repeat split; auto. intros d H1 H2. lia.
Qed.

(** What [MakeFreeList] leaves behind: the chain 0, 1, ..., MAXNODES-1
    whose last node points back to node 0, every node with the free
    mark, and an empty page array. *)
Lemma MakeFreeList_spec : forall s,
  sFreeList (MakeFreeList s) = 0 /\
  (forall j, 0 <= j < MAXNODES ->
     GetNode j (MakeFreeList s)
       = mkNode 0 (if j =? MAXNODES - 1 then 0 else j + 1) FREENODE) /\
  (forall mag page, Lookup mag page (MakeFreeList s) = NULLPTR).
Proof.
  intros s. unfold MakeFreeList.
  pose proof (hdr_maxnodes Hdr) as HM.
  set (s2 := SetNode _ 0 (set_sFreeList 0 s)).
  assert (H2 : sFreeList s2 = 0) by reflexivity.
  destruct (free_loop_spec (Z.to_nat MAXNODES) s2) as (A & B & _ & _);
    [rewrite Z2Nat.id; lia | rewrite H2; lia |].
  rewrite Z2Nat.id in A, B by lia.
  set (s3 := free_loop (Z.to_nat MAXNODES) (MAXNODES - 1) s2) in *.
  destruct (clear_loop_spec (Z.to_nat PAGEARRAYSIZE) 0 s3) as (C & D & _ & E);
    [lia|].
  change (2 * 0) with 0 in *.
  repeat split.
  - rewrite C, A. destruct (Z.to_nat MAXNODES) eqn:E0; [lia | reflexivity].
  - intros j Hj. rewrite D, B by assumption. now rewrite H2.
  - intros mag page. unfold Lookup. rewrite cellAddress_eq.
    pose proof (cellIndex_range mag page).
    pose proof (hdr_pagearray Hdr) as HP. unfold sizeof_NODEPTR in HP.
    apply E; lia.
Qed.

Lemma formatted_next : forall s j,
  0 <= j < MAXNODES ->
  0 <= next (GetNode j (MakeFreeList s)) < MAXNODES /\
  subpage (GetNode j (MakeFreeList s)) = FREENODE.
Proof.
  intros s j Hj. destruct (MakeFreeList_spec s) as (_ & B & _).
  rewrite B by assumption. simpl. split; [|reflexivity].
  destruct (j =? MAXNODES - 1) eqn:E; [|apply Z.eqb_neq in E]; lia.
Qed.

Lemma formatted_follow : forall s n j,
  0 <= j < MAXNODES -> 0 <= follow n j (MakeFreeList s) < MAXNODES.
Proof.
  intros s. induction n as [|n IH]; intros j Hj; simpl.
  - assumption.
  - apply IH. now apply formatted_next.
Qed.

Lemma formatted_visited : forall s n j,
  Z.of_nat j + Z.of_nat n <= MAXNODES ->
  visited n (Z.of_nat j) (MakeFreeList s) = map Z.of_nat (seq j n) /\
  follow n (Z.of_nat j) (MakeFreeList s)
    = (if Z.of_nat j + Z.of_nat n =? MAXNODES
       then (if Nat.eqb n 0 then Z.of_nat j else 0)
       else Z.of_nat j + Z.of_nat n).
Proof.
  intros s. destruct (MakeFreeList_spec s) as (_ & B & _).
  induction n as [|n IH]; intros j Hj.
  - simpl. split; [reflexivity|].
    destruct (_ =? _); lia.
  - cbn [visited follow seq map]. rewrite B by lia. cbn [next].
    destruct (Z.of_nat j =? MAXNODES - 1) eqn:E.
    + apply Z.eqb_eq in E. assert (n = O) by lia. subst n. simpl.
      split; [reflexivity|].
      destruct (_ =? _) eqn:E1; [reflexivity | apply Z.eqb_neq in E1; lia].
    + apply Z.eqb_neq in E.
      replace (Z.of_nat j + 1) with (Z.of_nat (S j)) by lia.
      destruct (IH (S j)) as (V & W); [lia|].
      rewrite V, W. split; [reflexivity|].
      replace (Z.of_nat (S j) + Z.of_nat n) with (Z.of_nat j + Z.of_nat (S n))
        by lia.
      destruct (Z.of_nat j + Z.of_nat (S n) =? MAXNODES) eqn:E1;
        [|reflexivity].
      apply Z.eqb_eq in E1.
      destruct n; simpl; [lia | reflexivity].
Qed.

(** ** [LinkPage], step by step *)

Lemma LinkPage_eq : forall mag page subpg ix s,
  LinkPage mag page subpg ix s
  = SetNode (mkNode (uint16 ix) NULLPTR (uint8 subpg)) (sFreeList s)
      (Bind mag page (sFreeList s) (snd (NewNode s))).
Proof.
  intros. unfold LinkPage. pose proof (NewNode_fst s) as H.
  destruct (NewNode s) as [ix' s1]. simpl in *. now subst.
Qed.

Lemma GetNode_NewNode : forall j s, GetNode j (snd (NewNode s)) = GetNode j s.
Proof. intros j s. unfold GetNode. now rewrite NewNode_ram. Qed.

Lemma Lookup_NewNode : forall mag page s,
  Lookup mag page (snd (NewNode s)) = Lookup mag page s.
Proof. intros. unfold Lookup, GetNodePtr. now rewrite NewNode_ram. Qed.

Lemma Lookup_cell : forall mag page mag' page' s,
  cellIndex mag' page' = cellIndex mag page ->
  Lookup mag' page' s = Lookup mag page s.
Proof. intros * H. unfold Lookup. rewrite !cellAddress_eq. now rewrite H. Qed.

Lemma LinkPage_sFreeList : forall mag page subpg ix s,
  sFreeList (LinkPage mag page subpg ix s) = sFreeList (snd (NewNode s)).
Proof. intros. rewrite LinkPage_eq. reflexivity. Qed.

Lemma new_node_wf : forall ix subpg,
  wf_node (mkNode (uint16 ix) NULLPTR (uint8 subpg)).
Proof.
  intros. pose proof (hdr_nullptr Hdr). pose proof (hdr_maxnodes Hdr).
  pose proof (uint16_range ix). pose proof (uint8_range subpg).
  unfold wf_node; simpl. lia.
Qed.

Lemma LinkPage_node_new : forall mag page subpg ix s,
  GetNode (sFreeList s) (LinkPage mag page subpg ix s)
  = mkNode (uint16 ix) NULLPTR (uint8 subpg).
Proof.
  intros. rewrite LinkPage_eq. apply GetNode_SetNode_same, new_node_wf.
Qed.

Lemma LinkPage_node_other : forall mag page subpg ix j s,
  0 <= sFreeList s < MAXNODES -> 0 <= j < MAXNODES -> j <> sFreeList s ->
  GetNode j (LinkPage mag page subpg ix s) = GetNode j s.
Proof.
  intros * Hh Hj Hne. rewrite LinkPage_eq.
  rewrite GetNode_SetNode_other by auto.
  rewrite GetNode_Bind by assumption. apply GetNode_NewNode.
Qed.

Lemma LinkPage_Lookup_same : forall mag page subpg ix s,
  0 <= sFreeList s < MAXNODES ->
  Lookup mag page (LinkPage mag page subpg ix s) = sFreeList s.
Proof.
  intros * Hh. rewrite LinkPage_eq.
  rewrite Lookup_SetNode by assumption. rewrite Lookup_Bind_same.
  pose proof (hdr_maxnodes Hdr). apply uint16_small. lia.
Qed.

Lemma LinkPage_Lookup_other : forall mag page subpg ix mag' page' s,
  0 <= sFreeList s < MAXNODES ->
  cellIndex mag' page' <> cellIndex mag page ->
  Lookup mag' page' (LinkPage mag page subpg ix s) = Lookup mag' page' s.
Proof.
  intros * Hh Hne. rewrite LinkPage_eq.
  rewrite Lookup_SetNode by assumption.
  rewrite Lookup_Bind_other by assumption. apply Lookup_NewNode.
Qed.

(** Bytes outside the cell and outside the record of the new node stay
    as they are. *)
Lemma LinkPage_ram : forall mag page subpg ix s a,
  ~ (cellAddress mag page <= a < cellAddress mag page + sizeof_NODEPTR) ->
  ~ (node_addr (sFreeList s) <= a
     < node_addr (sFreeList s) + sizeof_DISPLAYNODE) ->
  ram (LinkPage mag page subpg ix s) a = ram s a.
Proof.
  intros * Hc Hn. rewrite LinkPage_eq.
  unfold SetNode, Bind, SetNodePtr, set_ram; cbn [ram].
  rewrite WriteSPIRam_outside
    by (rewrite (hdr_sizeof Hdr); lia).
  pose proof (cellIndex_range mag page). rewrite cellAddress_eq in *.
  rewrite (uint16_small (2 * cellIndex mag page)) by lia.
  rewrite WriteSPIRam_outside
    by (unfold sizeof_NODEPTR, ptr_bytes in *; cbn [length]; lia).
  now rewrite NewNode_ram.
Qed.

(** ** The pool invariant *)

Lemma linked_ext : forall F s s' h,
  (forall f, In f F -> GetNode f s' = GetNode f s) ->
  linked s h F -> linked s' h F.
Proof.
  induction F as [|f F IH]; intros s s' h Hext H; simpl in *.
  - exact I.
  - destruct H as (Hh & Hm & Hl).
    rewrite (Hext f) by auto. repeat split; auto.
    apply (IH s); auto.
Qed.

Lemma formatted_linked : forall s n j,
  Z.of_nat j + Z.of_nat n <= MAXNODES ->
  linked (MakeFreeList s) (Z.of_nat j) (map Z.of_nat (seq j n)).
Proof.
  intros s. destruct (MakeFreeList_spec s) as (_ & B & _).
  induction n as [|n IH]; intros j Hj; simpl.
  - exact I.
  - rewrite B by lia. simpl. repeat split.
    destruct n as [|n]; [exact I|].
    destruct (Z.of_nat j =? MAXNODES - 1) eqn:E;
      [apply Z.eqb_eq in E; lia|].
    replace (Z.of_nat j + 1) with (Z.of_nat (S j)) by lia.
    apply IH. lia.
Qed.

Lemma in_pool_seq : forall x n,
  In x (map Z.of_nat (seq 0 n)) -> 0 <= x < Z.of_nat n.
Proof.
  intros x n H. apply in_map_iff in H. destruct H as (k & <- & Hk).
  apply in_seq in Hk. lia.
Qed.

Lemma NoDup_pool_seq : forall n, NoDup (map Z.of_nat (seq 0 n)).
Proof.
  intros n. apply Finite.Injective_map_NoDup.
  - intros a b. apply Nat2Z.inj.
  - apply seq_NoDup.
Qed.

Lemma pool_inv_format : forall s,
  pool_inv (MakeFreeList s) (map Z.of_nat (seq 0 (Z.to_nat MAXNODES))) [].
Proof.
  intros s. destruct (MakeFreeList_spec s) as (A & B & C).
  pose proof (hdr_maxnodes Hdr) as HM. pose proof (hdr_nullptr Hdr) as HN.
  constructor.
  - rewrite A. lia.
  - rewrite A. apply (formatted_linked s (Z.to_nat MAXNODES) 0).
    rewrite Z2Nat.id; lia.
  - rewrite app_nil_r. apply NoDup_pool_seq.
  - intros x Hx. rewrite app_nil_r in Hx. apply in_pool_seq in Hx.
    rewrite Z2Nat.id in Hx; lia.
  - rewrite app_nil_r, length_map, length_seq. rewrite Z2Nat.id; lia.
  - intros mag page. left. apply C.
  - intros mag page mag' page' _ H. rewrite C in H. contradiction.
Qed.

Lemma pool_inv_head : forall s f F A,
  pool_inv s (f :: F) A ->
  sFreeList s = f /\ 0 <= f < MAXNODES /\
  subpage (GetNode f s) <> NULLNODE /\ ~ In f F /\ ~ In f A.
Proof.
  intros s f F A H. destruct (inv_linked H) as (Hh & Hm & _).
  pose proof (inv_nodup H) as Hnd. simpl in Hnd.
  apply NoDup_cons_iff in Hnd. destruct Hnd as (Hnin & _).
  repeat split.
  - assumption.
  - apply (inv_range H). simpl. auto.
  - apply (inv_range H). simpl. auto.
  - rewrite Hm. apply (hdr_marks Hdr).
  - intros Hin. apply Hnin, in_or_app. auto.
  - intros Hin. apply Hnin, in_or_app. auto.
Qed.

(** Moving the head from the free nodes to the nodes in use. *)
Lemma pool_inv_move : forall s s' f F A,
  pool_inv s (f :: F) A ->
  0 <= sFreeList s' < 65536 ->
  linked s' (sFreeList s') F ->
  (forall mag page,
      Lookup mag page s' = NULLPTR \/
      (In (Lookup mag page s') (f :: A) /\
       next (GetNode (Lookup mag page s') s') = NULLPTR)) ->
  (forall mag page mag' page',
      Lookup mag page s' = Lookup mag' page' s' ->
      Lookup mag page s' <> NULLPTR ->
      cellIndex mag page = cellIndex mag' page') ->
  pool_inv s' F (f :: A).
Proof.
  intros s s' f F A H Hh Hl Hc Hs.
  assert (P : Permutation ((f :: F) ++ A) (F ++ f :: A))
    by apply Permutation_middle.
  constructor; auto.
  - apply (Permutation_NoDup P), (inv_nodup H).
  - intros x Hx. apply (inv_range H).
    apply (Permutation_in _ (Permutation_sym P) Hx).
  - rewrite <- (Permutation_length P). apply (inv_count H).
Qed.

Lemma pool_inv_NewNode : forall s f F A,
  pool_inv s (f :: F) A ->
  fst (NewNode s) = f /\ pool_inv (snd (NewNode s)) F (f :: A).
Proof.
  intros s f F A H.
  destruct (pool_inv_head _ _ _ _ H) as (Hh & Hf & Hm & HnF & HnA).
  destruct (inv_linked H) as (_ & _ & Hl).
  rewrite NewNode_free by (rewrite Hh; assumption).
  rewrite Hh. cbn [fst snd]. split; [reflexivity|].
  apply (pool_inv_move s); [exact H| | | |].
  - cbn [sFreeList set_sFreeList]. apply (GetNode_wf f s).
  - cbn [sFreeList set_sFreeList].
    apply (linked_ext F s); [intros; apply GetNode_set_sFreeList | exact Hl].
  - intros mag page. destruct (inv_cells H mag page) as [E|(E1 & E2)].
    + left. exact E.
    + right. split; [right; exact E1 | exact E2].
  - apply (inv_shared H).
Qed.

Lemma pool_inv_Release : forall s F A1 i A2,
  pool_inv s F (A1 ++ i :: A2) ->
  (forall mag page, Lookup mag page s <> i) ->
  pool_inv (ReturnToFreeList i s) (i :: F) (A1 ++ A2).
Proof.
  intros s F A1 i A2 H Hun.
  assert (P : Permutation (F ++ A1 ++ i :: A2) ((i :: F) ++ A1 ++ A2)).
  { simpl. rewrite !app_assoc. apply Permutation_sym, Permutation_middle. }
  assert (Hi : 0 <= i < MAXNODES).
  { apply (inv_range H). apply in_or_app. right. apply in_or_app. simpl. auto. }
  assert (HnF : forall f, In f F -> f <> i /\ 0 <= f < MAXNODES).
  { intros f Hf. split.
    - intros ->. pose proof (Permutation_NoDup P (inv_nodup H)) as Hnd.
      simpl in Hnd. apply NoDup_cons_iff in Hnd. destruct Hnd as (Hnin & _).
      apply Hnin, in_or_app. auto.
    - apply (inv_range H), in_or_app. auto. }
  pose proof (hdr_maxnodes Hdr) as HM.
  constructor.
  - rewrite ReturnToFreeList_head. apply uint16_range.
  - rewrite ReturnToFreeList_head, uint16_small by lia.
    simpl. rewrite ReturnToFreeList_same by apply (inv_head H).
    simpl. repeat split.
    apply (linked_ext F s); [|apply (inv_linked H)].
    intros f Hf. destruct (HnF f Hf). apply ReturnToFreeList_other; auto.
  - apply (Permutation_NoDup P), (inv_nodup H).
  - intros x Hx. apply (inv_range H).
    apply (Permutation_in _ (Permutation_sym P) Hx).
  - rewrite <- (Permutation_length P). apply (inv_count H).
  - intros mag page. rewrite ReturnToFreeList_Lookup by assumption.
    destruct (inv_cells H mag page) as [E|(E1 & E2)]; [left; exact E|].
    right. pose proof (Hun mag page) as Hne.
    assert (Hr : 0 <= Lookup mag page s < MAXNODES)
      by (apply (inv_range H), in_or_app; auto).
    split.
    + apply in_app_or in E1. apply in_or_app.
      destruct E1 as [E1|[E1|E1]]; auto. congruence.
    + rewrite ReturnToFreeList_other by auto. exact E2.
  - intros mag page mag' page'.
    rewrite !ReturnToFreeList_Lookup by assumption. apply (inv_shared H).
Qed.

Lemma pool_inv_LinkPage : forall s f F A mag page subpg ix,
  pool_inv s (f :: F) A ->
  pool_inv (LinkPage mag page subpg ix s) F (f :: A).
Proof.
  intros s f F A mag page subpg ix H.
  destruct (pool_inv_head _ _ _ _ H) as (Hh & Hf & Hm & HnF & HnA).
  destruct (inv_linked H) as (_ & _ & Hl).
  pose proof (hdr_nullptr Hdr) as HN.
  assert (HhR : 0 <= sFreeList s < MAXNODES) by (rewrite Hh; exact Hf).
  assert (Hold : forall m p, cellIndex m p <> cellIndex mag page ->
            Lookup m p s <> f).
  { intros m p _ E. destruct (inv_cells H m p) as [E1|(E1 & _)].
    - rewrite E in E1. lia.
    - rewrite E in E1. contradiction. }
  apply (pool_inv_move s); [exact H| | | |].
  - rewrite LinkPage_sFreeList, NewNode_free by (rewrite Hh; assumption).
    cbn [snd sFreeList set_sFreeList]. apply GetNode_wf.
  - rewrite LinkPage_sFreeList, NewNode_free by (rewrite Hh; assumption).
    cbn [snd sFreeList set_sFreeList]. rewrite Hh.
    apply (linked_ext F s); [|exact Hl].
    intros g Hg. apply LinkPage_node_other; auto.
    + apply (inv_range H). simpl. right. apply in_or_app. auto.
    + rewrite Hh. intros ->. contradiction.
  - intros m p.
    destruct (Z.eq_dec (cellIndex m p) (cellIndex mag page)) as [E|E].
    + right. rewrite (Lookup_cell _ _ _ _ _ E), LinkPage_Lookup_same by assumption.
      rewrite Hh. split; [left; reflexivity|].
      rewrite <- Hh, LinkPage_node_new. reflexivity.
    + rewrite LinkPage_Lookup_other by assumption.
      destruct (inv_cells H m p) as [E1|(E1 & E2)]; [left; exact E1|].
      right. split; [right; exact E1|].
      rewrite LinkPage_node_other; auto.
      * apply (inv_range H), in_or_app. auto.
      * rewrite Hh. intros E3. rewrite E3 in E1. contradiction.
  - intros m p m' p' E Hne.
    destruct (Z.eq_dec (cellIndex m p) (cellIndex mag page)) as [E1|E1];
    destruct (Z.eq_dec (cellIndex m' p') (cellIndex mag page)) as [E2|E2].
    + congruence.
    + rewrite (Lookup_cell _ _ _ _ _ E1), LinkPage_Lookup_same in E by assumption.
      rewrite LinkPage_Lookup_other in E by assumption.
      exfalso. apply (Hold m' p' E2). congruence.
    + rewrite (Lookup_cell _ _ _ _ _ E2), LinkPage_Lookup_same in E by assumption.
      rewrite LinkPage_Lookup_other in E by assumption.
      exfalso. apply (Hold m p E1). congruence.
    + rewrite !LinkPage_Lookup_other in * by assumption.
      now apply (inv_shared H).
Qed.

Lemma pool_inv_room : forall s F A,
  pool_inv s F A -> not_exhausted A -> exists f F', F = f :: F'.
Proof.
  intros s F A H Hr. pose proof (inv_count H) as Hc.
  unfold not_exhausted in Hr. rewrite length_app in Hc.
  destruct F as [|f F']; [simpl in Hc; lia | eauto].
Qed.

Lemma reachable_pool_inv : forall s A,
  reachable not_exhausted s A -> exists F, pool_inv s F A.
Proof.
  intros s A R. induction R as
    [s0 | s A R (F & IH) Hroom | s A1 i A2 R (F & IH) Hun
     | s A mag page subpg ix R (F & IH) Hroom].
  - eexists. apply pool_inv_format.
  - destruct (pool_inv_room _ _ _ IH Hroom) as (f & F' & ->).
    destruct (pool_inv_NewNode _ _ _ _ IH) as (E & Hinv).
    rewrite E. eauto.
  - eexists. apply pool_inv_Release; eauto.
  - destruct (pool_inv_room _ _ _ IH Hroom) as (f & F' & ->).
    destruct (pool_inv_NewNode _ _ _ _ IH) as (E & _).
    rewrite E. eexists. apply pool_inv_LinkPage. eauto.
Qed.

Lemma pool_inv_in_list : forall s F A mag page i,
  pool_inv s F A -> in_list s (Lookup mag page s) i ->
  i = Lookup mag page s /\ In i A.
Proof.
  intros s F A mag page i H L.
  destruct (inv_cells H mag page) as [E|(E1 & E2)].
  - inversion L; subst; contradiction.
  - inversion L as [np Hne|np j Hne L']; subst.
    + auto.
    + rewrite E2 in L'. inversion L'; subst; contradiction.
Qed.

(** While the pool is not used up, the node that [LinkPage] takes is not
    the one to which the cell refers. *)
Lemma LinkPage_keeps_linked_node : forall s A mag page subpg ix,
  reachable not_exhausted s A -> not_exhausted A ->
  Lookup mag page s <> NULLPTR ->
  Lookup mag page s <> fst (NewNode s) /\
  GetNode (Lookup mag page s) (LinkPage mag page subpg ix s)
    = GetNode (Lookup mag page s) s.
Proof.
  intros s A mag page subpg ix R Hroom Hne.
  destruct (reachable_pool_inv s A R) as (F & H).
  destruct (pool_inv_room _ _ _ H Hroom) as (f & F' & ->).
  destruct (pool_inv_head _ _ _ _ H) as (Hh & Hf & _ & _ & HnA).
  destruct (inv_cells H mag page) as [E|(E & _)]; [contradiction|].
  assert (Hd : Lookup mag page s <> f) by (intros E'; rewrite E' in E; auto).
  rewrite NewNode_fst, Hh. split; [exact Hd|].
  apply LinkPage_node_other.
  - rewrite Hh. exact Hf.
  - apply (inv_range H), in_or_app. auto.
  - rewrite Hh. exact Hd.
Qed.

(** ** The page scan *)

Lemma cellIndex_valid : forall mag page,
  1 <= mag <= 8 -> 0 <= page <= 255 ->
  cellIndex mag page = (mag - 1) * 256 + page.
Proof.
  intros mag page Hm Hp. unfold cellIndex.
  rewrite (uint8_small mag), (uint8_small page) by lia.
  rewrite Z.shiftl_mul_pow2 by lia.
  change 7 with (Z.ones 3). rewrite Z.land_ones by lia.
  rewrite Z.mod_small by (change (2 ^ 3) with 8; lia).
  reflexivity.
Qed.

Lemma NoDup_cells : forall hs,
  (forall h, In h hs -> 1 <= Page.mag h <= 8 /\ 0 <= Page.page h <= 255) ->
  NoDup (map (fun h => (Page.mag h, Page.page h)) hs) ->
  NoDup (map cell_of hs).
Proof.
  induction hs as [|h hs IH]; intros Hv Hnd; simpl in *.
  - constructor.
  - apply NoDup_cons_iff in Hnd. destruct Hnd as (Hnin & Hnd).
    constructor; [|apply IH; auto].
    intros Hin. apply in_map_iff in Hin. destruct Hin as (h' & E & Hh').
    apply Hnin. apply in_map_iff. exists h'. split; [|exact Hh'].
    destruct (Hv h (or_introl eq_refl)). destruct (Hv h' (or_intror Hh')).
    unfold cell_of in E. rewrite !cellIndex_valid in E by assumption.
    f_equal; lia.
Qed.

(** Distinct pairs are no more than the page array has cells. *)
Lemma distinct_pairs_fit : forall hs,
  (forall h, In h hs -> 1 <= Page.mag h <= 8 /\ 0 <= Page.page h <= 255) ->
  NoDup (map (fun h => (Page.mag h, Page.page h)) hs) ->
  (length hs <= 2048)%nat.
Proof.
  intros hs Hv Hnd.
  rewrite <- (@length_map Page.PAGE Z cell_of hs).
  replace 2048%nat with (length (map Z.of_nat (seq 0 2048)))
    by (rewrite length_map; apply length_seq).
  apply NoDup_incl_length; [apply NoDup_cells; assumption|].
  intros c Hc. apply in_map_iff in Hc. destruct Hc as (h & <- & Hh).
  pose proof (cellIndex_range (Page.mag h) (Page.page h)) as R.
  apply in_map_iff. exists (Z.to_nat (cell_of h)). unfold cell_of. split.
  - apply Z2Nat.id. lia.
  - apply in_seq. lia.
Qed.

Lemma link_all_spec : forall hs ix s F A,
  pool_inv s F A -> (length hs <= length F)%nat ->
  NoDup (map cell_of hs) ->
  0 <= ix -> ix + Z.of_nat (length hs) < 65536 ->
  (forall i h, nth_error hs i = Some h ->
     pageindex (GetNode (Lookup (Page.mag h) (Page.page h) (link_all hs ix s))
                  (link_all hs ix s)) = ix + Z.of_nat i) /\
  (forall mag page,
     (forall h, In h hs -> cell_of h <> cellIndex mag page) ->
     Lookup mag page (link_all hs ix s) = Lookup mag page s) /\
  (forall j, In j A -> GetNode j (link_all hs ix s) = GetNode j s).
Proof.
  induction hs as [|h hs IH]; intros ix s F A H Hlen Hnd Hix Hmax.
  - simpl. repeat split; auto. intros [|i] h'; discriminate.
  - destruct F as [|f F]; [simpl in Hlen; lia|].
    destruct (pool_inv_head _ _ _ _ H) as (Hh & Hf & Hm & HnF & HnA).
    assert (HhR : 0 <= sFreeList s < MAXNODES) by (rewrite Hh; exact Hf).
    simpl in Hnd. apply NoDup_cons_iff in Hnd. destruct Hnd as (Hnin & Hnd).
    cbn [link_all]. cbn [length] in Hlen, Hmax.
    rewrite (uint16_small (ix + 1)) by lia.
    set (s1 := LinkPage (Page.mag h) (Page.page h) (Page.subpage h) ix s).
    destruct (IH (ix + 1) s1 F (f :: A)) as (P1 & P2 & P3).
    { apply pool_inv_LinkPage, H. } { lia. } { exact Hnd. } { lia. } { lia. }
    repeat split.
    + intros [|i] h' Hnth; simpl in Hnth.
      * injection Hnth as <-.
        rewrite P2.
        2:{ intros h' Hh' E. apply Hnin. apply in_map_iff. eauto. }
        unfold s1 at 1. rewrite LinkPage_Lookup_same by assumption.
        rewrite Hh, P3 by (left; reflexivity).
        unfold s1. rewrite <- Hh, LinkPage_node_new. simpl.
        rewrite uint16_small; lia.
      * rewrite (P1 i h' Hnth). lia.
    + intros mag page Hne. rewrite P2 by (intros h' Hh'; apply Hne; right; exact Hh').
      unfold s1. apply LinkPage_Lookup_other; [assumption|].
      intros E. apply (Hne h); [left; reflexivity | symmetry; exact E].
    + intros j Hj. rewrite P3 by (right; exact Hj). unfold s1.
      apply LinkPage_node_other; [assumption | |].
      * apply (inv_range H). right. apply in_or_app. auto.
      * rewrite Hh. intros ->. contradiction.
Qed.

Lemma page_loop_headers : forall listFIL fuel ix p f s,
  page_loop fuel listFIL ix p f s
  = match headers fuel listFIL p f with
    | Some hs => Some (link_all hs ix s)
    | None => None
    end.
Proof.
  induction listFIL as [|r rest IH]; intros; simpl.
  - reflexivity.
  - destruct (header_loop fuel (set_mag 9 p) (f_lseek f (seekptr r)))
      as [[p' f']|]; [|reflexivity].
    rewrite IH. destruct (headers fuel rest p' f'); reflexivity.
Qed.

Lemma headers_length : forall listFIL fuel p f hs,
  headers fuel listFIL p f = Some hs -> length hs = length listFIL.
Proof.
  induction listFIL as [|r rest IH]; intros fuel p f hs H; simpl in H.
  - now injection H as <-.
  - destruct (header_loop fuel (set_mag 9 p) (f_lseek f (seekptr r)))
      as [[p' f']|]; [|discriminate].
    destruct (headers fuel rest p' f') as [hs'|] eqn:E; [|discriminate].
    injection H as <-. simpl. f_equal. eapply IH, E.
Qed.

Lemma header_loop_parse_n : forall k fuel pf,
  (forall j, (j < k)%nat -> Page.mag (fst (parse_n j pf)) = 9) ->
  Page.mag (fst (parse_n k pf)) <> 9 ->
  (k < fuel)%nat ->
  header_loop fuel (fst pf) (snd pf) = Some (parse_n k pf).
Proof.
  induction k as [|k IH]; intros fuel pf Hlt Hk Hfuel;
    (destruct fuel as [|fuel]; [lia|]); cbn [header_loop].
  - simpl in Hk. apply Z.eqb_neq in Hk. rewrite Hk. now destruct pf.
  - pose proof (Hlt O ltac:(lia)) as H0. simpl in H0.
    apply Z.eqb_eq in H0. rewrite H0.
    specialize (IH fuel (parse_next pf)).
    destruct (f_gets MAXLINE (snd pf)) as [str f'] eqn:E.
    assert (Hpn : parse_next pf = (ParseLine (fst pf) str, f'))
      by (unfold parse_next; now rewrite E).
    cbn [parse_n]. rewrite Hpn in *. apply IH.
    + intros j Hj. specialize (Hlt (S j)). cbn [parse_n] in Hlt.
      rewrite Hpn in Hlt. apply Hlt. lia.
    + cbn [parse_n] in Hk. now rewrite Hpn in Hk.
    + lia.
Qed.

Lemma header_loop_never : forall fuel pf,
  (forall j, Page.mag (fst (parse_n j pf)) = 9) ->
  header_loop fuel (fst pf) (snd pf) = None.
Proof.
  induction fuel as [|fuel IH]; intros pf H; cbn [header_loop].
  - reflexivity.
  - pose proof (H O) as H0. simpl in H0. apply Z.eqb_eq in H0. rewrite H0.
    specialize (IH (parse_next pf)).
    destruct (f_gets MAXLINE (snd pf)) as [str f'] eqn:E.
    assert (Hpn : parse_next pf = (ParseLine (fst pf) str, f'))
      by (unfold parse_next; now rewrite E).
    rewrite Hpn in IH. apply IH.
    intros j. specialize (H (S j)). cbn [parse_n] in H.
    now rewrite Hpn in H.
Qed.

(** ** A pool that is used up *)

(** Whatever the size of the pool: link page 1/00, then page 1/01 once
    for each of the other nodes.  All nodes are then in use, the free
    list head is back at node 0, and the cell of page 1/00 refers to
    node 0. *)
Lemma relink_state : forall r j,
  Z.of_nat j <= MAXNODES - 1 ->
  sFreeList (relink j (LinkPage 1 0 0 0 (MakeFreeList r)))
    = (if 1 + Z.of_nat j <? MAXNODES then 1 + Z.of_nat j else 0) /\
  Lookup 1 0 (relink j (LinkPage 1 0 0 0 (MakeFreeList r))) = 0 /\
  GetNode 0 (relink j (LinkPage 1 0 0 0 (MakeFreeList r)))
    = mkNode 0 NULLPTR 0 /\
  (forall i, 1 + Z.of_nat j <= i < MAXNODES ->
     GetNode i (relink j (LinkPage 1 0 0 0 (MakeFreeList r)))
       = GetNode i (MakeFreeList r)).
Proof.
  intros r. destruct (MakeFreeList_spec r) as (A & B & _).
  pose proof (hdr_maxnodes Hdr) as HM. pose proof (hdr_marks Hdr) as Hmk.
  assert (Hnext : forall s h,
    0 <= h < MAXNODES -> sFreeList s = h ->
    GetNode h s = GetNode h (MakeFreeList r) ->
    forall mag page subpg ix,
    sFreeList (LinkPage mag page subpg ix s)
      = (if h =? MAXNODES - 1 then 0 else h + 1)).
  { intros s h Hh Hs Hn mag page subpg ix.
    rewrite LinkPage_sFreeList, NewNode_free; rewrite Hs, Hn, B by assumption;
      [reflexivity | exact Hmk]. }
  induction j as [|j IH]; intros Hj; cbn [relink].
  - repeat split.
    + rewrite (Hnext (MakeFreeList r) 0); auto; [|lia].
      change (1 + Z.of_nat 0) with 1.
      destruct (0 =? MAXNODES - 1) eqn:E1; destruct (1 <? MAXNODES) eqn:E2;
        try reflexivity.
      * apply Z.eqb_eq in E1. apply Z.ltb_lt in E2. lia.
      * apply Z.eqb_neq in E1. apply Z.ltb_ge in E2. lia.
    + rewrite LinkPage_Lookup_same; rewrite A; [reflexivity | lia].
    + rewrite <- A at 1. rewrite LinkPage_node_new. reflexivity.
    + intros i Hi. apply LinkPage_node_other; try rewrite A; lia.
  - destruct IH as (I1 & I2 & I3 & I4); [lia|].
    set (s := relink j (LinkPage 1 0 0 0 (MakeFreeList r))) in *.
    destruct (1 + Z.of_nat j <? MAXNODES) eqn:E; [|apply Z.ltb_ge in E; lia].
    apply Z.ltb_lt in E.
    assert (Hh : 0 <= sFreeList s < MAXNODES) by (rewrite I1; lia).
    repeat split.
    + rewrite (Hnext s (1 + Z.of_nat j)); auto; [|lia|apply I4; lia].
      replace (1 + Z.of_nat (S j)) with (1 + Z.of_nat j + 1) by lia.
      destruct (1 + Z.of_nat j =? MAXNODES - 1) eqn:E1;
        destruct (1 + Z.of_nat j + 1 <? MAXNODES) eqn:E2; try reflexivity.
      * apply Z.eqb_eq in E1. apply Z.ltb_lt in E2. lia.
      * apply Z.eqb_neq in E1. apply Z.ltb_ge in E2. lia.
    + rewrite LinkPage_Lookup_other; [exact I2 | exact Hh |].
      vm_compute. discriminate.
    + rewrite LinkPage_node_other; [exact I3 | exact Hh | lia |].
      rewrite I1. lia.
    + intros i Hi. rewrite LinkPage_node_other; [apply I4; lia | exact Hh | lia |].
      rewrite I1. lia.
Qed.

Lemma relink_reachable : forall j s A,
  reachable always s A -> exists A', reachable always (relink j s) A'.
Proof.
  induction j as [|j IH]; intros s A R; cbn [relink].
  - eauto.
  - destruct (IH s A R) as (A' & R').
    eexists. apply reach_LinkPage; [exact R' | exact I].
Qed.

Lemma used_up_pool : forall r,
  (exists A,
     reachable always
       (relink (Z.to_nat (MAXNODES - 1)) (LinkPage 1 0 0 0 (MakeFreeList r)))
       A) /\
  sFreeList
    (relink (Z.to_nat (MAXNODES - 1)) (LinkPage 1 0 0 0 (MakeFreeList r))) = 0 /\
  Lookup 1 0
    (relink (Z.to_nat (MAXNODES - 1)) (LinkPage 1 0 0 0 (MakeFreeList r))) = 0 /\
  GetNode 0
    (relink (Z.to_nat (MAXNODES - 1)) (LinkPage 1 0 0 0 (MakeFreeList r)))
    = mkNode 0 NULLPTR 0.
Proof.
  intros r. pose proof (hdr_maxnodes Hdr) as HM.
  destruct (relink_state r (Z.to_nat (MAXNODES - 1))) as (H1 & H2 & H3 & _);
    [rewrite Z2Nat.id; lia|].
  rewrite Z2Nat.id in H1 by lia.
  replace (1 + (MAXNODES - 1)) with MAXNODES in H1 by lia.
  rewrite Z.ltb_irrefl in H1.
  split; [|auto].
  eapply relink_reachable. apply reach_LinkPage; [apply reach_Format | exact I].
Qed.

(** With every header: a run that respects the contract and ends in a
    state where [NewNode] returns a node to which a cell refers. *)
Lemma every_pool_hands_out_linked_node :
  exists s A,
    reachable always s A /\
    in_list s (Lookup 1 0 s) (fst (NewNode s)).
Proof.
  destruct (used_up_pool (mkState (fun _ => 0) 0 0)) as ((A & R) & H1 & H2 & _).
  eexists. exists A. split; [exact R|].
  rewrite NewNode_fst, H1, H2. apply in_list_here.
  pose proof (hdr_nullptr Hdr). pose proof (hdr_maxnodes Hdr). lia.
Qed.

(** With every header: a run that respects the contract and ends in a
    state where [LinkPage] rewrites the node to which the cell refers. *)
Lemma every_pool_rewrites_linked_node :
  exists s A,
    reachable always s A /\
    Lookup 1 0 s <> NULLPTR /\
    GetNode (Lookup 1 0 s) (LinkPage 1 0 0 1 s) <> GetNode (Lookup 1 0 s) s.
Proof.
  destruct (used_up_pool (mkState (fun _ => 0) 0 0)) as ((A & R) & H1 & H2 & H3).
  eexists. exists A. split; [exact R|].
  rewrite H2. split.
  - pose proof (hdr_nullptr Hdr). pose proof (hdr_maxnodes Hdr). lia.
  - rewrite H3. rewrite <- H1 at 1. rewrite LinkPage_node_new.
    vm_compute. discriminate.
Qed.

(** ** Records and their headers *)

Lemma f_lseek_inside : forall f ofs,
  0 <= ofs <= Z.of_nat (String.length (content f)) ->
  f_lseek f ofs = mkFIL (content f) (Z.to_nat ofs).
Proof.
  intros f ofs H. unfold f_lseek. f_equal. apply Nat.min_l. lia.
Qed.

Lemma f_gets_content : forall len f, content (snd (f_gets len f)) = content f.
Proof.
  intros len f. unfold f_gets.
  destruct (take_line (len - 1) (drop (fptr f) (content f))); reflexivity.
Qed.

Lemma parse_n_content : forall k pf,
  content (snd (parse_n k pf)) = content (snd pf).
Proof.
  induction k as [|k IH]; intros pf; cbn [parse_n].
  - reflexivity.
  - rewrite IH. unfold parse_next.
    pose proof (f_gets_content MAXLINE (snd pf)) as H.
    destruct (f_gets MAXLINE (snd pf)) as [str f']. exact H.
Qed.

(** Well-formed records are scanned to headers with their keys. *)
Lemma headers_of_keys : forall fuel all idx keys,
  Forall2 (key_at fuel all) idx keys ->
  forall p f, content f = all ->
  exists hs,
    headers fuel idx p f = Some hs /\
    map (fun h => (Page.mag h, Page.page h)) hs = keys.
Proof.
  intros fuel all idx keys H.
  induction H as [|r key idx keys (Hin & Hkey) _ IH]; intros p f Hf.
  - exists []. split; reflexivity.
  - destruct (Hkey p) as (k & Hk & Hlt & Hm & Hp & Hne).
    cbn [headers]. rewrite f_lseek_inside by (rewrite Hf; exact Hin).
    rewrite Hf.
    set (pf := (set_mag 9 p, mkFIL all (Z.to_nat (seekptr r)))) in *.
    change (set_mag 9 p) with (fst pf).
    change (mkFIL all (Z.to_nat (seekptr r))) with (snd pf).
    rewrite (header_loop_parse_n k fuel pf Hlt) by (rewrite ?Hm; auto).
    destruct (parse_n k pf) as [p' f'] eqn:E.
    assert (Hf' : content f' = all).
    { pose proof (parse_n_content k pf) as C. rewrite E in C. exact C. }
    destruct (IH p' f' Hf') as (hs & Hhs & Hmap).
    rewrite Hhs. exists (p' :: hs). split; [reflexivity|].
    cbn [map fst snd] in *. rewrite Hmap, Hm, Hp.
    destruct key; reflexivity.
Qed.

(** The chain of a formatted pool. *)
Lemma formatted_chain : forall s,
  visited (Z.to_nat MAXNODES) (sFreeList (MakeFreeList s)) (MakeFreeList s)
    = map Z.of_nat (seq 0 (Z.to_nat MAXNODES)) /\
  follow (Z.to_nat MAXNODES) (sFreeList (MakeFreeList s)) (MakeFreeList s)
    = sFreeList (MakeFreeList s) /\
  (forall k,
     subpage (GetNode (follow k (sFreeList (MakeFreeList s)) (MakeFreeList s))
                (MakeFreeList s)) = FREENODE).
Proof.
  intros s. destruct (MakeFreeList_spec s) as (A & _).
  pose proof (hdr_maxnodes Hdr) as HM.
  rewrite A. change 0 with (Z.of_nat 0).
  destruct (formatted_visited s (Z.to_nat MAXNODES) 0) as (V & W);
    [rewrite Z2Nat.id; lia|].
  repeat split.
  - exact V.
  - rewrite W. rewrite Z2Nat.id by lia. simpl (Z.of_nat 0 + MAXNODES).
    rewrite Z.eqb_refl.
    destruct (Z.to_nat MAXNODES) eqn:E; [lia | reflexivity].
  - intros k. apply formatted_next, formatted_follow. simpl. lia.
Qed.

(** ** Properties of the specification *)

(** C8. Directory bounds: mags 1 and 9 address the cells of row 0, mags
    8 and 16 those of row 7; for every mag and page the cell lies inside
    the 8 x 256 page array, [Bind] writes no byte outside that cell and
    [Lookup] reads none. *)
Theorem directory_bounds :
  (forall page,
     cellIndex 1 page = 0 * 256 + uint8 page /\
     cellIndex 9 page = 0 * 256 + uint8 page /\
     cellIndex 8 page = 7 * 256 + uint8 page /\
     cellIndex 16 page = 7 * 256 + uint8 page) /\
  (forall mag page,
     cellAddress mag page = cellIndex mag page * sizeof_NODEPTR /\
     0 <= cellIndex mag page < 8 * 256 /\
     0 <= cellAddress mag page /\
     cellAddress mag page + sizeof_NODEPTR <= 8 * 256 * sizeof_NODEPTR) /\
  (forall mag page nodeptr s a,
     a < cellAddress mag page \/ cellAddress mag page + sizeof_NODEPTR <= a ->
     ram (Bind mag page nodeptr s) a = ram s a) /\
  (forall mag page s s',
     (forall a, cellAddress mag page <= a < cellAddress mag page + sizeof_NODEPTR ->
        ram s a = ram s' a) ->
     Lookup mag page s = Lookup mag page s').
Proof.
  split; [|split; [|split]].
  - intros page. unfold cellIndex. repeat split; reflexivity.
  - intros mag page. pose proof (cellIndex_range mag page).
    rewrite cellAddress_eq. unfold sizeof_NODEPTR. lia.
  - intros mag page nodeptr s a Ha.
    pose proof (cellIndex_range mag page). rewrite cellAddress_eq in Ha.
    unfold Bind, SetNodePtr, set_ram; cbn [ram].
    rewrite cellAddress_eq, uint16_small by lia.
    apply WriteSPIRam_outside.
    unfold sizeof_NODEPTR, ptr_bytes in *; cbn [length]. lia.
  - intros mag page s s' H. unfold Lookup, GetNodePtr. f_equal.
    pose proof (cellIndex_range mag page). rewrite cellAddress_eq in *.
    rewrite uint16_small by lia.
    apply ReadSPIRam_ext. intros a Ha. apply H.
    unfold sizeof_NODEPTR in *. lia.
Qed.

(** C6. While the head of the free list does not carry [NULLNODE],
    [NewNode] returns the head, moves [sFreeList] to the [next] of that
    node, and writes nothing: the serial RAM, and with it the record of
    the returned node, is as before. *)
Theorem NewNode_pops_head : forall s,
  subpage (GetNode (sFreeList s) s) <> NULLNODE ->
  fst (NewNode s) = sFreeList s /\
  sFreeList (snd (NewNode s)) = next (GetNode (sFreeList s) s) /\
  ram (snd (NewNode s)) = ram s /\
  GetNode (fst (NewNode s)) (snd (NewNode s)) = GetNode (sFreeList s) s.
Proof.
  intros s H. rewrite NewNode_free by assumption. cbn [fst snd].
  repeat split.
Qed.

(** C10. When the head of the free list carries [NULLNODE], [NewNode]
    changes nothing and still returns the head; the value it returns is
    the head in either branch, so nothing in it tells the failure, and
    any number of further calls return that same node. *)
Theorem NewNode_exhausted_returns_head : forall s,
  subpage (GetNode (sFreeList s) s) = NULLNODE ->
  NewNode s = (sFreeList s, s) /\
  (forall s', fst (NewNode s') = sFreeList s') /\
  (forall n, NewNode_calls n s = (repeat (true, sFreeList s) n, s)).
Proof.
  intros s H.
  assert (E : NewNode s = (sFreeList s, s)).
  { unfold NewNode. rewrite H, Z.eqb_refl. reflexivity. }
  split; [exact E|]. split; [apply NewNode_fst|].
  induction n as [|n IH]; cbn [NewNode_calls repeat].
  - reflexivity.
  - rewrite E, IH. unfold out_of_nodes. rewrite H, Z.eqb_refl. reflexivity.
Qed.

(** C1. After [MakeFreeList] the walk along [next] from [sFreeList]
    meets the nodes 0, 1, ..., MAXNODES-1, each once; the step after the
    last of them leads back to the head, and every node on the way
    carries [FREENODE]: no node with [NULLNODE] ends the list. *)
Theorem MakeFreeList_chain_is_circular : forall s,
  visited (Z.to_nat MAXNODES) (sFreeList (MakeFreeList s)) (MakeFreeList s)
    = map Z.of_nat (seq 0 (Z.to_nat MAXNODES)) /\
  follow (Z.to_nat MAXNODES) (sFreeList (MakeFreeList s)) (MakeFreeList s)
    = sFreeList (MakeFreeList s) /\
  (forall k,
     subpage (GetNode (follow k (sFreeList (MakeFreeList s)) (MakeFreeList s))
                (MakeFreeList s)) = FREENODE) /\
  FREENODE <> NULLNODE.
Proof.
  intros s. destruct (formatted_chain s) as (V & W & M).
  repeat split; auto. apply (hdr_marks Hdr).
Qed.

(** C3. From a formatted pool, none of MAXNODES + 1 calls of [NewNode]
    takes the out-of-nodes branch: the calls return the nodes
    0, 1, ..., MAXNODES-1 and then node 0 a second time. *)
Theorem NewNode_never_reports_exhaustion : forall s,
  fst (NewNode_calls (S (Z.to_nat MAXNODES)) (MakeFreeList s))
  = map (pair false) (map Z.of_nat (seq 0 (Z.to_nat MAXNODES)) ++ [0]).
Proof.
  intros s. pose proof (hdr_maxnodes Hdr) as HM.
  destruct (formatted_chain s) as (V & W & M).
  destruct (NewNode_calls_walk (S (Z.to_nat MAXNODES)) (MakeFreeList s))
    as (L & _).
  { intros k _. rewrite M. apply (hdr_marks Hdr). }
  rewrite L. f_equal.
  replace (S (Z.to_nat MAXNODES)) with (Z.to_nat MAXNODES + 1)%nat by lia.
  rewrite visited_app, V, W. cbn [visited].
  destruct (MakeFreeList_spec s) as (A & _). now rewrite A.
Qed.

(** C5, amended.  Last write wins: in a state reached from a formatted
    pool in which two nodes are still free, after two calls of
    [LinkPage] for the same mag and page with different record numbers
    the cell refers to the node that [NewNode] handed out in the second
    call, whatever the cell held before; each call takes a node of its
    own that was not in use, the node of the second call carries the
    second record number and not the first, and the node of the first
    call keeps its record, with no cell left that refers to it. *)
Theorem LinkPage_last_write_wins :
  forall s A mag page subpg1 ix1 subpg2 ix2,
  reachable not_exhausted s A ->
  Z.of_nat (length A) + 2 <= MAXNODES ->
  0 <= ix1 < 65536 -> 0 <= ix2 < 65536 -> ix1 <> ix2 ->
  let s1 := LinkPage mag page subpg1 ix1 s in
  let s2 := LinkPage mag page subpg2 ix2 s1 in
  Lookup mag page s1 = fst (NewNode s) /\
  Lookup mag page s2 = fst (NewNode s1) /\
  Lookup mag page s2 <> Lookup mag page s1 /\
  ~ In (Lookup mag page s1) A /\ ~ In (Lookup mag page s2) A /\
  pageindex (GetNode (Lookup mag page s2) s2) = ix2 /\
  pageindex (GetNode (Lookup mag page s2) s2) <> ix1 /\
  GetNode (Lookup mag page s1) s2 = mkNode ix1 NULLPTR (uint8 subpg1) /\
  (forall mag' page', Lookup mag' page' s2 <> Lookup mag page s1).
Proof.
  intros s A mag page subpg1 ix1 subpg2 ix2 R Hroom H1 H2 Hne s1 s2.
  destruct (reachable_pool_inv s A R) as (F & H).
  assert (HF : exists f1 f2 F', F = f1 :: f2 :: F').
  { pose proof (inv_count H) as Hc. rewrite length_app in Hc.
    destruct F as [|f1 [|f2 F']]; cbn [length] in Hc; try lia. eauto. }
  destruct HF as (f1 & f2 & F' & ->).
  destruct (pool_inv_head _ _ _ _ H) as (Hh & Hf1 & _ & _ & HnA).
  assert (Hinv1 : pool_inv s1 (f2 :: F') (f1 :: A))
    by (apply pool_inv_LinkPage; exact H).
  destruct (pool_inv_head _ _ _ _ Hinv1) as (Hh1 & Hf2 & _ & _ & HnA1).
  assert (Hinv2 : pool_inv s2 F' (f2 :: f1 :: A))
    by (apply pool_inv_LinkPage; exact Hinv1).
  assert (Hd : f2 <> f1) by (intros E; apply HnA1; left; auto).
  assert (E1 : Lookup mag page s1 = f1).
  { unfold s1. rewrite LinkPage_Lookup_same; rewrite Hh; auto. }
  assert (E2 : Lookup mag page s2 = f2).
  { unfold s2. rewrite LinkPage_Lookup_same; rewrite Hh1; auto. }
  assert (N2 : GetNode f2 s2 = mkNode (uint16 ix2) NULLPTR (uint8 subpg2)).
  { unfold s2. rewrite <- Hh1 at 1. apply LinkPage_node_new. }
  assert (N1 : GetNode f1 s2 = mkNode (uint16 ix1) NULLPTR (uint8 subpg1)).
  { unfold s2. rewrite LinkPage_node_other; try rewrite Hh1; auto.
    unfold s1. rewrite <- Hh at 1. apply LinkPage_node_new. }
  rewrite !NewNode_fst, E1, E2, Hh, Hh1, N1, N2. cbn [pageindex].
  rewrite !uint16_small by assumption.
  repeat split; auto.
  - intros Hin. apply HnA1. right. exact Hin.
  - intros mag' page' E.
    destruct (Z.eq_dec (cellIndex mag' page') (cellIndex mag page)) as [C|C].
    + rewrite (Lookup_cell _ _ _ _ _ C), E2 in E. contradiction.
    + unfold s2 in E. rewrite LinkPage_Lookup_other in E;
        [|rewrite Hh1; exact Hf2 | exact C].
      unfold s1 in E. rewrite LinkPage_Lookup_other in E;
        [|rewrite Hh; exact Hf1 | exact C].
      destruct (inv_cells H mag' page') as [E0|(E0 & _)].
      * pose proof (hdr_nullptr Hdr). rewrite E in E0. lia.
      * rewrite E in E0. contradiction.
Qed.

(** C9, amended.  [LinkPage] writes the cell and the record of the node
    that [NewNode] hands out, and nothing else; the free list head is
    moved by [NewNode] alone.  When the cell referred to another node of
    the pool, that node's record is left as it was. *)
Theorem LinkPage_frame : forall s mag page subpg ix,
  0 <= sFreeList s < MAXNODES ->
  0 <= Lookup mag page s < MAXNODES ->
  Lookup mag page s <> fst (NewNode s) ->
  let s' := LinkPage mag page subpg ix s in
  GetNode (Lookup mag page s) s' = GetNode (Lookup mag page s) s /\
  sFreeList s' = sFreeList (snd (NewNode s)) /\
  Lookup mag page s' = fst (NewNode s) /\
  GetNode (fst (NewNode s)) s' = mkNode (uint16 ix) NULLPTR (uint8 subpg) /\
  (forall a,
     ~ (cellAddress mag page <= a < cellAddress mag page + sizeof_NODEPTR) ->
     ~ (node_addr (fst (NewNode s)) <= a
        < node_addr (fst (NewNode s)) + sizeof_DISPLAYNODE) ->
     ram s' a = ram s a).
Proof.
  intros s mag page subpg ix Hh Hold Hne s'. rewrite NewNode_fst in *.
  unfold s'. repeat split.
  - apply LinkPage_node_other; assumption.
  - apply LinkPage_sFreeList.
  - apply LinkPage_Lookup_same; assumption.
  - apply LinkPage_node_new.
  - intros a Hc Hn. now apply LinkPage_ram.
Qed.

(** C4, amended.  In every state reached from a formatted pool by
    [NewNode], [ReturnToFreeList] and [LinkPage], where a node is
    released only while it is in use and no cell refers to it, and a node
    is asked for only while fewer than MAXNODES are in use: the nodes in
    use are distinct slots; the chain from [sFreeList] starts with the
    other slots, each once; every node on the list of a cell is in use
    and on the list of that cell alone; and while fewer than MAXNODES
    nodes are in use, [NewNode] returns a node that is neither in use nor
    on the list of any cell. *)
Theorem pool_ownership : forall s A,
  reachable not_exhausted s A ->
  NoDup A /\
  (forall a, In a A -> 0 <= a < MAXNODES) /\
  (exists F,
     linked s (sFreeList s) F /\
     Z.of_nat (length F) + Z.of_nat (length A) = MAXNODES /\
     NoDup F /\
     forall x, In x F ->
       0 <= x < MAXNODES /\ ~ In x A /\
       forall mag page, ~ in_list s (Lookup mag page s) x) /\
  (forall mag page i, in_list s (Lookup mag page s) i -> In i A) /\
  (forall mag page mag' page' i,
     in_list s (Lookup mag page s) i -> in_list s (Lookup mag' page' s) i ->
     cellIndex mag page = cellIndex mag' page') /\
  (not_exhausted A ->
     ~ In (fst (NewNode s)) A /\
     forall mag page, ~ in_list s (Lookup mag page s) (fst (NewNode s))).
Proof.
  intros s A R. destruct (reachable_pool_inv s A R) as (F & H).
  pose proof (inv_nodup H) as Hnd.
  assert (Hdis : forall x, In x F -> ~ In x A).
  { intros x HF HA. revert Hnd HF HA. clear. induction F as [|f F IH]; simpl.
    - tauto.
    - intros Hnd [->|HF] HA.
      + apply NoDup_cons_iff in Hnd. apply (proj1 Hnd), in_or_app. auto.
      + apply NoDup_cons_iff in Hnd. apply IH; tauto. }
  assert (Hlist : forall x mag page, ~ In x A ->
            ~ in_list s (Lookup mag page s) x).
  { intros x mag page Hx L.
    destruct (pool_inv_in_list _ _ _ _ _ _ H L) as (_ & Hin). contradiction. }
  split; [|split; [|split; [|split; [|split]]]].
  - apply NoDup_app_remove_l in Hnd. exact Hnd.
  - intros a Ha. apply (inv_range H), in_or_app. auto.
  - exists F. split; [apply (inv_linked H)|]. split; [|split].
    + rewrite <- (inv_count H), length_app. lia.
    + apply NoDup_app_remove_r in Hnd. exact Hnd.
    + intros x Hx. split; [apply (inv_range H), in_or_app; auto|].
      split; [apply Hdis, Hx|]. intros mag page. apply Hlist, Hdis, Hx.
  - intros mag page i L. apply (pool_inv_in_list _ _ _ _ _ _ H L).
  - intros mag page mag' page' i L L'.
    destruct (pool_inv_in_list _ _ _ _ _ _ H L) as (E & _).
    destruct (pool_inv_in_list _ _ _ _ _ _ H L') as (E' & _).
    apply (inv_shared H); [congruence|].
    inversion L; subst; assumption.
  - intros Hroom. destruct (pool_inv_room _ _ _ H Hroom) as (f & F' & ->).
    destruct (pool_inv_head _ _ _ _ H) as (Hh & _ & _ & _ & HnA).
    rewrite NewNode_fst, Hh. split; [exact HnA|].
    intros mag page. apply Hlist, HnA.
Qed.

(** C2, amended.  Round trip of the page scan: when the records of the
    index are well formed, their keys have a mag in 1..8 and a page in
    0..255 and are distinct, and the records are no more than the pool
    has nodes, [ScanPageList] on the formatted pool returns 0 and
    afterwards the cell of each key refers to a node whose [pageindex]
    is the position of the record in the index. *)
Theorem ingestion_roundtrip : forall fuel idx all p s keys,
  Forall2 (key_at fuel all) idx keys ->
  (forall m pg, In (m, pg) keys -> 1 <= m <= 8 /\ 0 <= pg <= 255) ->
  NoDup keys ->
  Z.of_nat (length idx) <= MAXNODES ->
  exists s',
    ScanPageList fuel (Some idx) (Some all) p (MakeFreeList s) = Some (0, s') /\
    forall i m pg, nth_error keys i = Some (m, pg) ->
      pageindex (GetNode (Lookup m pg s') s') = Z.of_nat i.
Proof.
  intros fuel idx all p s keys Hkeys Hv Hnd Hlen.
  pose proof (hdr_maxnodes Hdr) as HM.
  destruct (headers_of_keys fuel all idx keys Hkeys p (mkFIL all 0) eq_refl)
    as (hs & Hhs & Hmap).
  pose proof (headers_length _ _ _ _ _ Hhs) as HL.
  assert (Hvh : forall h, In h hs ->
            1 <= Page.mag h <= 8 /\ 0 <= Page.page h <= 255).
  { intros h Hh. apply Hv. rewrite <- Hmap.
    apply (in_map (fun h => (Page.mag h, Page.page h))), Hh. }
  exists (link_all hs 0 (MakeFreeList s)). split.
  - unfold ScanPageList. rewrite page_loop_headers, Hhs. reflexivity.
  - destruct (link_all_spec hs 0 (MakeFreeList s) _ _ (pool_inv_format s))
      as (P & _).
    + rewrite length_map, length_seq. lia.
    + apply NoDup_cells; [exact Hvh | rewrite Hmap; exact Hnd].
    + lia.
    + lia.
    + intros i m pg Hnth. rewrite <- Hmap, nth_error_map in Hnth.
      destruct (@nth_error Page.PAGE hs i) as [h|] eqn:E;
        cbn [option_map] in Hnth; [|discriminate].
      injection Hnth as <- <-. rewrite (P i h E). lia.
Qed.

(** C7, amended.  The header loop ends when, and only because, a parsed
    line yields a mag other than 9: if the first [k] lines read from the
    seek position of the record leave the mag at 9 and the next one does
    not, the loop ends after these reads with that header.  The size of
    the record plays no part: the scan of a record with any other
    [pagesize] is the same. *)
Theorem header_loop_stops_at_first_header : forall k fuel ixRec p f,
  (forall j, (j < k)%nat ->
     Page.mag (fst (parse_n j (set_mag 9 p, f_lseek f (seekptr ixRec)))) = 9) ->
  Page.mag (fst (parse_n k (set_mag 9 p, f_lseek f (seekptr ixRec)))) <> 9 ->
  (k < fuel)%nat ->
  header_loop fuel (set_mag 9 p) (f_lseek f (seekptr ixRec))
    = Some (parse_n k (set_mag 9 p, f_lseek f (seekptr ixRec))) /\
  forall size rest ix s,
    page_loop fuel (mkIxRec (seekptr ixRec) size :: rest) ix p f s
    = page_loop fuel (ixRec :: rest) ix p f s.
Proof.
  intros k fuel ixRec p f Hlt Hk Hfuel. split.
  - apply (header_loop_parse_n k fuel (set_mag 9 p, f_lseek f (seekptr ixRec)));
      assumption.
  - reflexivity.
Qed.

(** ** Further properties of the code *)

Lemma header_loop_sound : forall fuel p f p' f',
  header_loop fuel p f = Some (p', f') -> Page.mag p' <> 9.
Proof.
  induction fuel as [|fuel IH]; intros p f p' f' H; cbn [header_loop] in H.
  - discriminate.
  - destruct (Page.mag p =? 9) eqn:E.
    + destruct (f_gets MAXLINE f) as [str f1]. eapply IH, H.
    + injection H as <- <-. now apply Z.eqb_neq.
Qed.

Lemma headers_sound : forall listFIL fuel p f hs,
  headers fuel listFIL p f = Some hs ->
  forall h, In h hs -> Page.mag h <> 9.
Proof.
  induction listFIL as [|r rest IH]; intros fuel p f hs H h Hin; simpl in H.
  - injection H as <-. contradiction.
  - destruct (header_loop fuel (set_mag 9 p) (f_lseek f (seekptr r)))
      as [[p' f']|] eqn:E; [|discriminate].
    destruct (headers fuel rest p' f') as [hs'|] eqn:E'; [|discriminate].
    injection H as <-. destruct Hin as [<-|Hin].
    + eapply header_loop_sound, E.
    + eapply IH; eauto.
Qed.

Lemma link_all_app : forall l1 l2 ix s,
  0 <= ix -> ix + Z.of_nat (length l1) < 65536 ->
  link_all (l1 ++ l2) ix s
  = link_all l2 (ix + Z.of_nat (length l1)) (link_all l1 ix s).
Proof.
  induction l1 as [|h l1 IH]; intros l2 ix s Hix Hmax; cbn [app link_all length].
  - f_equal. simpl. lia.
  - cbn [length] in Hmax. rewrite (uint16_small (ix + 1)) by lia.
    rewrite IH by lia. f_equal. lia.
Qed.

(** The scan of a formatted pool: the record with number [k + i] goes
    into node [k + i]. *)
Lemma link_all_fresh : forall r hs k s,
  Z.of_nat k + Z.of_nat (length hs) <= MAXNODES ->
  (hs <> [] -> sFreeList s = Z.of_nat k) ->
  (forall j, Z.of_nat k <= j < MAXNODES ->
     GetNode j s = GetNode j (MakeFreeList r)) ->
  (forall i h, nth_error hs i = Some h ->
     GetNode (Z.of_nat (k + i)) (link_all hs (Z.of_nat k) s)
       = mkNode (Z.of_nat (k + i)) NULLPTR (uint8 (Page.subpage h))) /\
  (hs <> [] ->
     sFreeList (link_all hs (Z.of_nat k) s)
       = (if Z.of_nat k + Z.of_nat (length hs) =? MAXNODES then 0
          else Z.of_nat k + Z.of_nat (length hs))) /\
  (forall j, Z.of_nat k + Z.of_nat (length hs) <= j < MAXNODES ->
     GetNode j (link_all hs (Z.of_nat k) s) = GetNode j (MakeFreeList r)) /\
  (forall j, 0 <= j < Z.of_nat k ->
     GetNode j (link_all hs (Z.of_nat k) s) = GetNode j s) /\
  (forall i h, nth_error hs i = Some h ->
     (forall j h', (i < j)%nat -> nth_error hs j = Some h' ->
        cell_of h' <> cell_of h) ->
     Lookup (Page.mag h) (Page.page h) (link_all hs (Z.of_nat k) s)
       = Z.of_nat (k + i)) /\
  (forall mag page,
     (forall h, In h hs -> cell_of h <> cellIndex mag page) ->
     Lookup mag page (link_all hs (Z.of_nat k) s) = Lookup mag page s).
Proof.
  intros r. destruct (MakeFreeList_spec r) as (_ & B & _).
  pose proof (hdr_maxnodes Hdr) as HM. pose proof (hdr_marks Hdr) as Hmk.
  induction hs as [|h hs IH]; intros k s Hlen Hhead Hfree.
  - cbn [link_all length]. split; [|split; [|split; [|split; [|split]]]].
    + intros [|i] h'; discriminate.
    + intros H. contradiction.
    + intros j Hj. apply Hfree. lia.
    + auto.
    + intros [|i] h'; discriminate.
    + auto.
  - cbn [length] in Hlen. cbn [link_all].
    assert (Hk : sFreeList s = Z.of_nat k) by (apply Hhead; discriminate).
    assert (HkR : 0 <= sFreeList s < MAXNODES) by (rewrite Hk; lia).
    set (s1 := LinkPage (Page.mag h) (Page.page h) (Page.subpage h)
                 (Z.of_nat k) s).
    assert (H1 : sFreeList s1
                 = (if Z.of_nat k =? MAXNODES - 1 then 0 else Z.of_nat k + 1)).
    { unfold s1. rewrite LinkPage_sFreeList, NewNode_free;
        rewrite Hk, Hfree, B by lia; [reflexivity | exact Hmk]. }
    rewrite (uint16_small (Z.of_nat k + 1)) by lia.
    replace (Z.of_nat k + 1) with (Z.of_nat (S k)) in * by lia.
    destruct (IH (S k) s1) as (P1 & P2 & P3 & P4 & P5 & P6).
    { lia. }
    { intros Hne. rewrite H1.
      destruct (Z.of_nat k =? MAXNODES - 1) eqn:E; [|reflexivity].
      apply Z.eqb_eq in E. destruct hs; [contradiction | simpl in Hlen; lia]. }
    { intros j Hj. unfold s1. rewrite LinkPage_node_other; [apply Hfree| | |]; lia. }
    assert (Hnode : GetNode (Z.of_nat k) s1
              = mkNode (Z.of_nat k) NULLPTR (uint8 (Page.subpage h))).
    { unfold s1. rewrite <- Hk at 1. rewrite LinkPage_node_new.
      rewrite uint16_small by lia. reflexivity. }
    split; [|split; [|split; [|split; [|split]]]].
    + intros [|i] h' Hnth; simpl in Hnth.
      * injection Hnth as <-. rewrite Nat.add_0_r, P4 by lia. exact Hnode.
      * replace (k + S i)%nat with (S k + i)%nat by lia. apply P1, Hnth.
    + intros _. destruct hs as [|h2 hs].
      * cbn [link_all length]. rewrite H1.
        replace (Z.of_nat k + Z.of_nat 1) with (Z.of_nat (S k)) by lia.
        destruct (Z.of_nat k =? MAXNODES - 1) eqn:E1;
          destruct (Z.of_nat (S k) =? MAXNODES) eqn:E2; try reflexivity.
        -- apply Z.eqb_eq in E1. apply Z.eqb_neq in E2. lia.
        -- apply Z.eqb_neq in E1. apply Z.eqb_eq in E2. lia.
      * rewrite P2 by discriminate.
        replace (Z.of_nat (S k) + Z.of_nat (length (h2 :: hs)))
          with (Z.of_nat k + Z.of_nat (S (length (h2 :: hs)))) by lia.
        reflexivity.
    + intros j Hj. cbn [length] in Hj. apply P3. lia.
    + intros j Hj. rewrite P4 by lia. unfold s1.
      apply LinkPage_node_other; lia.
    + intros [|i] h' Hnth Hlast; simpl in Hnth.
      * injection Hnth as <-. rewrite Nat.add_0_r, P6.
        -- unfold s1. rewrite LinkPage_Lookup_same; assumption.
        -- intros h' Hin. destruct (In_nth_error _ _ Hin) as (j & Hj).
           apply (Hlast (S j) h'); [lia | exact Hj].
      * replace (k + S i)%nat with (S k + i)%nat by lia.
        apply P5; [exact Hnth|].
        intros j h2 Hij Hj. apply (Hlast (S j) h2); [lia | exact Hj].
    + intros mag page Hne.
      rewrite P6 by (intros h' Hin; apply Hne; right; exact Hin).
      unfold s1. apply LinkPage_Lookup_other; [assumption|].
      intros E. apply (Hne h); [left; reflexivity | symmetry; exact E].
Qed.

Lemma follow_self : forall n i s,
  next (GetNode i s) = i -> follow n i s = i /\ visited n i s = repeat i n.
Proof.
  induction n as [|n IH]; intros i s H; simpl.
  - auto.
  - rewrite H. destruct (IH i s H) as (E1 & E2). rewrite E1, E2. auto.
Qed.

(** X1. A node that is written to index [i] is read back from index
    [i], for every index; when [i] is a slot of the pool, no other slot
    and no cell of the page array is touched, and the free list head
    stays where it is. *)
Theorem SetNode_GetNode_roundtrip : forall node i s,
  wf_node node ->
  GetNode i (SetNode node i s) = node /\
  sFreeList (SetNode node i s) = sFreeList s /\
  (0 <= i < MAXNODES ->
   (forall j, 0 <= j < MAXNODES -> j <> i ->
      GetNode j (SetNode node i s) = GetNode j s) /\
   (forall mag page, Lookup mag page (SetNode node i s) = Lookup mag page s)).
Proof.
  intros node i s Hwf. split; [|split; [reflexivity|]].
  - now apply GetNode_SetNode_same.
  - intros Hi. split.
    + intros j Hj Hne. apply GetNode_SetNode_other; auto.
    + intros mag page. now apply Lookup_SetNode.
Qed.

(** X2. A node pointer written to a cell address is read back from it,
    truncated to 16 bits; cells that do not overlap it keep their value,
    and a write inside the page array leaves every node of the pool as
    it was. *)
Theorem SetNodePtr_GetNodePtr_roundtrip : forall nodeptr addr s,
  GetNodePtr addr (SetNodePtr nodeptr addr s) = uint16 nodeptr /\
  (forall b, 0 <= addr < 65536 -> 0 <= b < 65536 ->
     addr + sizeof_NODEPTR <= b \/ b + sizeof_NODEPTR <= addr ->
     GetNodePtr b (SetNodePtr nodeptr addr s) = GetNodePtr b s) /\
  (0 <= addr -> addr + sizeof_NODEPTR <= PAGEARRAYSIZE ->
   forall j, 0 <= j < MAXNODES ->
     GetNode j (SetNodePtr nodeptr addr s) = GetNode j s).
Proof.
  intros nodeptr addr s. split; [|split].
  - apply GetNodePtr_SetNodePtr_same.
  - intros b Ha Hb Hab. apply GetNodePtr_SetNodePtr_other; auto.
  - intros H1 H2 j Hj. unfold sizeof_NODEPTR in H2.
    apply GetNode_SetNodePtr; auto.
Qed.

(** X3. [MakeFreeList] wipes whatever the serial RAM held, a display
    list included: afterwards [sFreeList] is 0, every cell of the page
    array holds [NULLPTR], and every node of the pool has page index 0,
    the free mark and the next slot as its successor, the last slot
    pointing to slot 0.  Two formats give the same pool. *)
Theorem MakeFreeList_resets_everything : forall s,
  sFreeList (MakeFreeList s) = 0 /\
  (forall mag page, Lookup mag page (MakeFreeList s) = NULLPTR) /\
  (forall j, 0 <= j < MAXNODES ->
     GetNode j (MakeFreeList s)
       = mkNode 0 (if j =? MAXNODES - 1 then 0 else j + 1) FREENODE) /\
  (forall s' j, 0 <= j < MAXNODES ->
     GetNode j (MakeFreeList (MakeFreeList s')) = GetNode j (MakeFreeList s)).
Proof.
  intros s. destruct (MakeFreeList_spec s) as (A & B & C).
  repeat split; auto.
  intros s' j Hj.
  destruct (MakeFreeList_spec (MakeFreeList s')) as (_ & B' & _).
  rewrite B, B' by assumption. reflexivity.
Qed.

(** X4. Release, then allocate: [NewNode] after [ReturnToFreeList(i)]
    returns [i] without reporting an empty list and puts [sFreeList]
    back to where it was; the other nodes of the pool and the page array
    are as before the release. *)
Theorem ReturnToFreeList_then_NewNode : forall i s,
  0 <= i < MAXNODES -> 0 <= sFreeList s < 65536 ->
  out_of_nodes (ReturnToFreeList i s) = false /\
  fst (NewNode (ReturnToFreeList i s)) = i /\
  sFreeList (snd (NewNode (ReturnToFreeList i s))) = sFreeList s /\
  (forall j, 0 <= j < MAXNODES -> j <> i ->
     GetNode j (snd (NewNode (ReturnToFreeList i s))) = GetNode j s) /\
  (forall mag page,
     Lookup mag page (snd (NewNode (ReturnToFreeList i s)))
       = Lookup mag page s).
Proof.
  intros i s Hi Hh. pose proof (hdr_maxnodes Hdr) as HM.
  assert (Hd : sFreeList (ReturnToFreeList i s) = i)
    by (rewrite ReturnToFreeList_head; apply uint16_small; lia).
  assert (Hn : GetNode (sFreeList (ReturnToFreeList i s)) (ReturnToFreeList i s)
               = mkNode 0 (sFreeList s) FREENODE)
    by (rewrite Hd; apply ReturnToFreeList_same; exact Hh).
  assert (Hs : subpage (GetNode (sFreeList (ReturnToFreeList i s))
                          (ReturnToFreeList i s)) <> NULLNODE)
    by (rewrite Hn; apply (hdr_marks Hdr)).
  split; [|split; [|split; [|split]]].
  - unfold out_of_nodes. now apply Z.eqb_neq.
  - rewrite NewNode_fst. exact Hd.
  - rewrite NewNode_free by exact Hs. cbn [snd sFreeList set_sFreeList].
    rewrite Hn. reflexivity.
  - intros j Hj Hne. rewrite GetNode_NewNode.
    apply ReturnToFreeList_other; auto.
  - intros mag page. rewrite Lookup_NewNode.
    now apply ReturnToFreeList_Lookup.
Qed.

(** X5. Releasing a node to which a cell still refers (the WARNING at
    [ReturnToFreeList]): the cell goes on referring to it, its record is
    wiped to page index 0 with the free mark and the old free list head
    as successor, and the next [NewNode] hands out that very node. *)
Theorem ReturnToFreeList_keeps_cell : forall i s mag page,
  0 <= i < MAXNODES -> 0 <= sFreeList s < 65536 ->
  Lookup mag page s = i ->
  Lookup mag page (ReturnToFreeList i s) = i /\
  GetNode i (ReturnToFreeList i s) = mkNode 0 (sFreeList s) FREENODE /\
  fst (NewNode (ReturnToFreeList i s)) = Lookup mag page (ReturnToFreeList i s).
Proof.
  intros i s mag page Hi Hh Hc. pose proof (hdr_maxnodes Hdr) as HM.
  assert (E : Lookup mag page (ReturnToFreeList i s) = i)
    by (rewrite ReturnToFreeList_Lookup; assumption).
  split; [exact E|]. split.
  - now apply ReturnToFreeList_same.
  - rewrite E, NewNode_fst, ReturnToFreeList_head. apply uint16_small. lia.
Qed.

(** X6. Releasing the same node twice makes it its own successor: from
    then on every call of [NewNode] returns it, without ever reporting
    an empty list. *)
Theorem ReturnToFreeList_twice_loops : forall i s n,
  0 <= i < MAXNODES ->
  GetNode i (ReturnToFreeList i (ReturnToFreeList i s))
    = mkNode 0 i FREENODE /\
  fst (NewNode_calls n (ReturnToFreeList i (ReturnToFreeList i s)))
    = repeat (false, i) n.
Proof.
  intros i s n Hi. pose proof (hdr_maxnodes Hdr) as HM.
  set (s1 := ReturnToFreeList i s).
  assert (H1 : sFreeList s1 = i)
    by (unfold s1; rewrite ReturnToFreeList_head; apply uint16_small; lia).
  assert (Hn : GetNode i (ReturnToFreeList i s1) = mkNode 0 i FREENODE).
  { rewrite ReturnToFreeList_same by (rewrite H1; lia). now rewrite H1. }
  assert (H2 : sFreeList (ReturnToFreeList i s1) = i)
    by (rewrite ReturnToFreeList_head; apply uint16_small; lia).
  split; [exact Hn|].
  destruct (follow_self n i (ReturnToFreeList i s1)) as (_ & V);
    [rewrite Hn; reflexivity|].
  destruct (NewNode_calls_walk n (ReturnToFreeList i s1)) as (L & _).
  { intros k _. rewrite H2.
    destruct (follow_self k i (ReturnToFreeList i s1)) as (F & _);
      [rewrite Hn; reflexivity|].
    rewrite F, Hn. apply (hdr_marks Hdr). }
  rewrite L, H2, V. clear. induction n; simpl; [reflexivity | now f_equal].
Qed.

(** X7. When [pages.idx] or [pages.all] cannot be opened
    [InitDisplayList] returns 1, and with an empty index it returns 0;
    in each case the pool has been formatted before: the free list
    starts at node 0, every node carries the free mark and no cell of
    the page array refers to a node. *)
Theorem InitDisplayList_without_pages : forall fuel pages_idx pages_all p s,
  pages_idx = None \/ pages_all = None \/ pages_idx = Some [] ->
  exists code s',
    InitDisplayList fuel pages_idx pages_all p s = Some (code, s') /\
    code = match pages_idx, pages_all with
           | Some _, Some _ => 0
           | _, _ => 1
           end /\
    sFreeList s' = 0 /\
    (forall mag page, Lookup mag page s' = NULLPTR) /\
    (forall j, 0 <= j < MAXNODES -> subpage (GetNode j s') = FREENODE).
Proof.
  intros fuel pages_idx pages_all p s H.
  set (s1 := mkState (ram s) NULLPTR NULLPTR).
  destruct (MakeFreeList_spec s1) as (A & B & C).
  assert (Hfmt : sFreeList (MakeFreeList s1) = 0 /\
                 (forall mag page, Lookup mag page (MakeFreeList s1) = NULLPTR) /\
                 (forall j, 0 <= j < MAXNODES ->
                    subpage (GetNode j (MakeFreeList s1)) = FREENODE)).
  { repeat split; auto. intros j Hj. now rewrite B. }
  unfold InitDisplayList, ScanPageList. fold s1.
  destruct pages_idx as [[|r rest]|]; destruct pages_all as [all|];
    try (exists 1, (MakeFreeList s1); split; [reflexivity|];
         split; [reflexivity | exact Hfmt]).
  - exists 0, (MakeFreeList s1). split; [reflexivity|].
    split; [reflexivity | exact Hfmt].
  - exfalso. destruct H as [H|[H|H]]; discriminate.
Qed.

(** X8. Whenever [ScanPageList] finds both files and returns, it
    returns 0 and it has called [LinkPage] once for every record of the
    index, in the order of the index and with the record numbers
    0, 1, 2, ...; none of these calls has mag 9. *)
Theorem ScanPageList_links_each_record : forall fuel idx all p s code s',
  ScanPageList fuel (Some idx) (Some all) p s = Some (code, s') ->
  code = 0 /\
  exists hs,
    headers fuel idx p (mkFIL all 0) = Some hs /\
    length hs = length idx /\
    s' = link_all hs 0 s /\
    forall h, In h hs -> Page.mag h <> 9.
Proof.
  intros fuel idx all p s code s' H. unfold ScanPageList in H.
  rewrite page_loop_headers in H.
  destruct (headers fuel idx p (mkFIL all 0)) as [hs|] eqn:E; [|discriminate].
  injection H as <- <-. split; [reflexivity|].
  exists hs. split; [reflexivity|]. split; [eapply headers_length, E|].
  split; [reflexivity|]. eapply headers_sound, E.
Qed.

(** X9. The scan of an index that names a page more than once: as long
    as the records are no more than the pool has nodes, the cell of a
    page refers to the node of the last record for that page, and this
    node carries that record's number and subpage and ends the list. *)
Theorem scan_last_record_wins : forall fuel idx all p s hs,
  headers fuel idx p (mkFIL all 0) = Some hs ->
  Z.of_nat (length idx) <= MAXNODES ->
  exists s',
    ScanPageList fuel (Some idx) (Some all) p (MakeFreeList s) = Some (0, s') /\
    forall i h, nth_error hs i = Some h ->
      (forall j h', (i < j)%nat -> nth_error hs j = Some h' ->
         cell_of h' <> cell_of h) ->
      GetNode (Lookup (Page.mag h) (Page.page h) s') s'
      = mkNode (Z.of_nat i) NULLPTR (uint8 (Page.subpage h)).
Proof.
  intros fuel idx all p s hs Hhs Hlen.
  pose proof (headers_length _ _ _ _ _ Hhs) as HL.
  destruct (MakeFreeList_spec s) as (A & _).
  exists (link_all hs 0 (MakeFreeList s)). split.
  - unfold ScanPageList. rewrite page_loop_headers, Hhs. reflexivity.
  - destruct (link_all_fresh s hs 0 (MakeFreeList s)) as (P1 & _ & _ & _ & P5 & _);
      [simpl; lia | auto | auto |].
    intros i h Hnth Hlast. change (Z.of_nat 0) with 0 in *.
    rewrite (P5 i h Hnth Hlast). apply (P1 i h Hnth).
Qed.

(** X10. The scan fills the pool in order: record [i] of the index is
    stored in node [i], also when its page occurs again later, so that
    every record takes a node of its own and a pool of MAXNODES nodes
    takes MAXNODES records; the nodes behind the last record stay free
    and the free list head stands behind the last record, or at node 0
    once the pool is full. *)
Theorem scan_fills_nodes_in_order : forall fuel idx all p s hs,
  headers fuel idx p (mkFIL all 0) = Some hs ->
  Z.of_nat (length idx) <= MAXNODES ->
  exists s',
    ScanPageList fuel (Some idx) (Some all) p (MakeFreeList s) = Some (0, s') /\
    (forall i h, nth_error hs i = Some h ->
       GetNode (Z.of_nat i) s'
       = mkNode (Z.of_nat i) NULLPTR (uint8 (Page.subpage h))) /\
    sFreeList s'
      = (if Z.of_nat (length idx) =? MAXNODES then 0
         else Z.of_nat (length idx)) /\
    (forall j, Z.of_nat (length idx) <= j < MAXNODES ->
       subpage (GetNode j s') = FREENODE).
Proof.
  intros fuel idx all p s hs Hhs Hlen.
  pose proof (headers_length _ _ _ _ _ Hhs) as HL.
  pose proof (hdr_maxnodes Hdr) as HM.
  destruct (MakeFreeList_spec s) as (A & B & _).
  exists (link_all hs 0 (MakeFreeList s)). split.
  - unfold ScanPageList. rewrite page_loop_headers, Hhs. reflexivity.
  - destruct (link_all_fresh s hs 0 (MakeFreeList s)) as (P1 & P2 & P3 & _);
      [simpl; lia | auto | auto |].
    change (Z.of_nat 0) with 0 in *. rewrite <- HL.
    split; [exact P1|]. split.
    + destruct hs as [|h hs].
      * cbn [length link_all]. change (Z.of_nat 0) with 0. rewrite A.
        destruct (0 =? MAXNODES) eqn:E; [apply Z.eqb_eq in E; lia | reflexivity].
      * rewrite P2 by discriminate. reflexivity.
    + intros j Hj. rewrite P3, B by lia. reflexivity.
Qed.

(** X11. One record more than the pool has nodes: the scan still
    returns 0, but the last record is stored in node 0, over the first
    record, and the cell of the first record's page, unless a later
    record names that page, now leads to the last record. *)
Theorem scan_overflow_reuses_node_0 : forall fuel idx all p s hs h,
  headers fuel idx p (mkFIL all 0) = Some (hs ++ [h]) ->
  Z.of_nat (length hs) = MAXNODES ->
  exists s',
    ScanPageList fuel (Some idx) (Some all) p (MakeFreeList s) = Some (0, s') /\
    Lookup (Page.mag h) (Page.page h) s' = 0 /\
    GetNode 0 s' = mkNode MAXNODES NULLPTR (uint8 (Page.subpage h)) /\
    forall h0, nth_error hs 0 = Some h0 ->
      (forall j h', (0 < j)%nat -> nth_error (hs ++ [h]) j = Some h' ->
         cell_of h' <> cell_of h0) ->
      Lookup (Page.mag h0) (Page.page h0) s' = 0.
Proof.
  intros fuel idx all p s hs h Hhs Hlen.
  pose proof (hdr_maxnodes Hdr) as HM.
  destruct (MakeFreeList_spec s) as (A & _).
  exists (link_all (hs ++ [h]) 0 (MakeFreeList s)). split.
  - unfold ScanPageList. rewrite page_loop_headers, Hhs. reflexivity.
  - rewrite link_all_app by lia. cbn [link_all]. rewrite Hlen.
    change (0 + MAXNODES) with MAXNODES.
    destruct (link_all_fresh s hs 0 (MakeFreeList s)) as (_ & P2 & _ & _ & P5 & _);
      [simpl; lia | auto | auto |].
    change (Z.of_nat 0) with 0 in *.
    set (s1 := link_all hs 0 (MakeFreeList s)) in *.
    assert (Hne : hs <> []) by (intros ->; simpl in Hlen; lia).
    assert (H1 : sFreeList s1 = 0).
    { rewrite P2 by exact Hne. simpl (0 + _). rewrite Hlen, Z.eqb_refl.
      reflexivity. }
    assert (HR : 0 <= sFreeList s1 < MAXNODES) by (rewrite H1; lia).
    split; [|split].
    + rewrite LinkPage_Lookup_same by exact HR. exact H1.
    + rewrite <- H1 at 1. rewrite LinkPage_node_new.
      rewrite uint16_small by lia. reflexivity.
    + intros h0 Hh0 Hlast.
      rewrite LinkPage_Lookup_other; [|exact HR|].
      * apply (P5 O h0 Hh0). intros j h' Hj Hnth.
        apply (Hlast j h' Hj). rewrite nth_error_app1; [exact Hnth|].
        apply nth_error_Some. congruence.
      * intros E. apply (Hlast (length hs) h).
        -- destruct hs; [contradiction | simpl; lia].
        -- rewrite nth_error_app2, Nat.sub_diag by lia. reflexivity.
        -- symmetry. exact E.
Qed.

(** X12. The page array gives every mag 1..8 and page 0..255 a cell of
    its own: two such pages share a cell address only when mag and page
    agree, and the cells of different pages do not overlap.  A mag
    outside 1..8 is folded onto one of them: mag + 8 uses the cells of
    mag, and mag 0 those of mag 8. *)
Theorem cellAddress_injective : forall mag page mag' page',
  1 <= mag <= 8 -> 0 <= page <= 255 ->
  1 <= mag' <= 8 -> 0 <= page' <= 255 ->
  (cellAddress mag page = cellAddress mag' page' ->
     mag = mag' /\ page = page') /\
  (mag <> mag' \/ page <> page' ->
     cellAddress mag page + sizeof_NODEPTR <= cellAddress mag' page' \/
     cellAddress mag' page' + sizeof_NODEPTR <= cellAddress mag page) /\
  cellIndex (mag + 8) page = cellIndex mag page /\
  cellIndex 0 page = cellIndex 8 page.
Proof.
  intros mag page mag' page' Hm Hp Hm' Hp'.
  rewrite !cellAddress_eq.
  rewrite (cellIndex_valid mag page), (cellIndex_valid mag' page')
    by assumption.
  unfold sizeof_NODEPTR.
  split; [lia|]. split; [lia|]. split.
  - unfold cellIndex.
    rewrite (uint8_small (mag + 8)), (uint8_small page) by lia.
    rewrite Z.shiftl_mul_pow2 by lia.
    change 7 with (Z.ones 3). rewrite Z.land_ones by lia.
    change (2 ^ 3) with 8. change (2 ^ 8) with 256.
    replace (mag + 8 - 1) with (mag - 1 + 1 * 8) by lia.
    rewrite Z_mod_plus_full, Z.mod_small by lia. reflexivity.
  - unfold cellIndex. rewrite (uint8_small page) by lia. reflexivity.
Qed.

(** X13. [LinkPage] on a pool whose free list head carries [NULLNODE]:
    the head node is linked all the same and its mark is overwritten by
    the subpage, so the next [NewNode] no longer sees the end of the
    list; it returns the same node again and moves [sFreeList] to
    [NULLPTR]. *)
Theorem LinkPage_overwrites_terminator : forall s mag page subpg ix,
  0 <= sFreeList s < MAXNODES ->
  subpage (GetNode (sFreeList s) s) = NULLNODE ->
  uint8 subpg <> NULLNODE ->
  sFreeList (LinkPage mag page subpg ix s) = sFreeList s /\
  Lookup mag page (LinkPage mag page subpg ix s) = sFreeList s /\
  out_of_nodes (LinkPage mag page subpg ix s) = false /\
  fst (NewNode (LinkPage mag page subpg ix s)) = sFreeList s /\
  sFreeList (snd (NewNode (LinkPage mag page subpg ix s))) = NULLPTR.
Proof.
  intros s mag page subpg ix Hh Hend Hsub.
  assert (E : NewNode s = (sFreeList s, s))
    by (unfold NewNode; rewrite Hend, Z.eqb_refl; reflexivity).
  assert (H1 : sFreeList (LinkPage mag page subpg ix s) = sFreeList s)
    by (rewrite LinkPage_sFreeList, E; reflexivity).
  assert (Hn : GetNode (sFreeList (LinkPage mag page subpg ix s))
                 (LinkPage mag page subpg ix s)
               = mkNode (uint16 ix) NULLPTR (uint8 subpg))
    by (rewrite H1; apply LinkPage_node_new).
  split; [exact H1|]. split; [now apply LinkPage_Lookup_same|].
  split; [|split].
  - unfold out_of_nodes. rewrite Hn. now apply Z.eqb_neq.
  - rewrite NewNode_fst. exact H1.
  - rewrite NewNode_free by (rewrite Hn; exact Hsub).
    cbn [snd sFreeList set_sFreeList]. rewrite Hn. reflexivity.
Qed.

End DisplayList.

(** ** The code on the small board *)

Module OnSmall.

Import Small.

Abbreviation GetNode :=
  (GetNode PAGEARRAYSIZE sizeof_DISPLAYNODE bytes_node).
Abbreviation SetNode :=
  (SetNode PAGEARRAYSIZE sizeof_DISPLAYNODE node_bytes).
Abbreviation NewNode :=
  (NewNode PAGEARRAYSIZE NULLNODE sizeof_DISPLAYNODE bytes_node).
Abbreviation NewNode_calls :=
  (NewNode_calls PAGEARRAYSIZE NULLNODE sizeof_DISPLAYNODE bytes_node).
Abbreviation MakeFreeList :=
  (MakeFreeList MAXNODES PAGEARRAYSIZE NULLPTR NULLNODE FREENODE
     sizeof_DISPLAYNODE node_bytes).
Abbreviation LinkPage :=
  (LinkPage PAGEARRAYSIZE NULLPTR NULLNODE sizeof_DISPLAYNODE node_bytes
     bytes_node).
Abbreviation ScanPageList :=
  (ScanPageList PAGEARRAYSIZE NULLPTR NULLNODE sizeof_DISPLAYNODE node_bytes
     bytes_node ParseLine).
Abbreviation follow := (follow PAGEARRAYSIZE sizeof_DISPLAYNODE bytes_node).
Abbreviation visited := (visited PAGEARRAYSIZE sizeof_DISPLAYNODE bytes_node).
Abbreviation in_list :=
  (in_list PAGEARRAYSIZE NULLPTR sizeof_DISPLAYNODE bytes_node).
Abbreviation reachable :=
  (reachable MAXNODES PAGEARRAYSIZE NULLPTR NULLNODE FREENODE
     sizeof_DISPLAYNODE node_bytes bytes_node).
Abbreviation header_ok :=
  (header_ok MAXNODES PAGEARRAYSIZE NULLPTR NULLNODE FREENODE
     sizeof_DISPLAYNODE node_bytes bytes_node).

Lemma small_layout : forall n, wf_node n -> bytes_node (node_bytes n) = n.
Proof.
  intros [pi nx sp] (Hp & Hn & Hs). cbn [pageindex next subpage] in *.
  cbv beta iota delta [bytes_node node_bytes ptr_bytes app pageindex next
                       subpage].
  f_equal.
  - apply (bytes_ptr_ptr_bytes pi Hp).
  - apply (bytes_ptr_ptr_bytes nx Hn).
  - unfold uint8. rewrite Z.mod_mod by lia. now apply Z.mod_small.
Qed.

Lemma small_fields : forall l, wf_node (bytes_node l).
Proof.
  intros l. unfold bytes_node.
  destruct l as [|a [|b [|c [|d [|e [|x l]]]]]];
    try (unfold wf_node; simpl; lia).
  pose proof (bytes_ptr_range [a; b]). pose proof (bytes_ptr_range [c; d]).
  pose proof (uint8_range e). unfold wf_node. cbn [pageindex next subpage].
  lia.
Qed.

Lemma small_header_ok : header_ok.
Proof.
  constructor; unfold MAXNODES, PAGEARRAYSIZE, NULLPTR, NULLNODE, FREENODE,
    sizeof_DISPLAYNODE, sizeof_NODEPTR; try lia.
  - intros n. reflexivity.
  - apply small_layout.
  - apply small_fields.
Qed.


(** The formatted small board, and the board after one and two pages
    were linked. *)
Abbreviation fresh := (MakeFreeList blank).
Abbreviation one_page := (LinkPage 3 16 0 0 fresh).
Abbreviation two_pages := (LinkPage 3 17 0 1 one_page).

Lemma fresh_head : sFreeList fresh = 0.
Proof. vm_compute. reflexivity. Qed.

Lemma one_page_state :
  sFreeList one_page = 1 /\ Lookup 3 16 one_page = 0 /\
  GetNode 0 one_page = mkNode 0 NULLPTR 0.
Proof. vm_compute. repeat split. Qed.

Lemma two_pages_state :
  sFreeList two_pages = 0 /\
  Lookup 3 16 two_pages = 0 /\ Lookup 3 17 two_pages = 1 /\
  GetNode 0 two_pages = mkNode 0 NULLPTR 0 /\
  GetNode 1 two_pages = mkNode 1 NULLPTR 0.
Proof. vm_compute. repeat split. Qed.

Lemma two_pages_reachable :
  reachable always two_pages [fst (NewNode one_page); fst (NewNode fresh)].
Proof.
  apply reach_LinkPage; [|exact I].
  apply reach_LinkPage; [|exact I].
  apply reach_Format.
Qed.

(** Witness of C6: the first call on the formatted board. *)
Lemma NewNode_pops_head_witness :
  subpage (GetNode (sFreeList fresh) fresh) <> NULLNODE /\
  fst (NewNode fresh) = sFreeList fresh /\
  sFreeList (snd (NewNode fresh)) = next (GetNode (sFreeList fresh) fresh) /\
  ram (snd (NewNode fresh)) = ram fresh /\
  GetNode (fst (NewNode fresh)) (snd (NewNode fresh))
    = GetNode (sFreeList fresh) fresh.
Proof.
  assert (H : subpage (GetNode (sFreeList fresh) fresh) <> NULLNODE)
    by (vm_compute; discriminate).
  split; [exact H|].
  apply (NewNode_pops_head PAGEARRAYSIZE NULLNODE sizeof_DISPLAYNODE
           bytes_node fresh H).
Defined.

(** Witness of C10: the board on which only the terminator was written. *)
Lemma NewNode_exhausted_returns_head_witness :
  let s := SetNode (mkNode 0 0 NULLNODE) 0 blank in
  subpage (GetNode (sFreeList s) s) = NULLNODE /\
  NewNode s = (sFreeList s, s) /\
  (forall s', fst (NewNode s') = sFreeList s') /\
  (forall n, NewNode_calls n s = (repeat (true, sFreeList s) n, s)).
Proof.
  intros s.
  assert (H : subpage (GetNode (sFreeList s) s) = NULLNODE)
    by (vm_compute; reflexivity).
  split; [exact H|].
  apply (NewNode_exhausted_returns_head PAGEARRAYSIZE NULLNODE
           sizeof_DISPLAYNODE bytes_node s H).
Defined.

(** Witness of C1: the chain of the formatted small board. *)
Lemma MakeFreeList_chain_is_circular_witness :
  header_ok /\
  visited (Z.to_nat MAXNODES) (sFreeList fresh) fresh
    = map Z.of_nat (seq 0 (Z.to_nat MAXNODES)) /\
  follow (Z.to_nat MAXNODES) (sFreeList fresh) fresh = sFreeList fresh /\
  (forall k,
     subpage (GetNode (follow k (sFreeList fresh) fresh) fresh) = FREENODE) /\
  FREENODE <> NULLNODE.
Proof.
  split; [exact small_header_ok|].
  apply (MakeFreeList_chain_is_circular MAXNODES PAGEARRAYSIZE NULLPTR
           NULLNODE FREENODE sizeof_DISPLAYNODE node_bytes bytes_node
           small_header_ok blank).
Defined.

(** Witness of C3: three calls on the pool of two nodes. *)
Lemma NewNode_never_reports_exhaustion_witness :
  header_ok /\
  fst (NewNode_calls (S (Z.to_nat MAXNODES)) fresh)
  = map (pair false) (map Z.of_nat (seq 0 (Z.to_nat MAXNODES)) ++ [0]).
Proof.
  split; [exact small_header_ok|].
  apply (NewNode_never_reports_exhaustion MAXNODES PAGEARRAYSIZE NULLPTR
           NULLNODE FREENODE sizeof_DISPLAYNODE node_bytes bytes_node
           small_header_ok blank).
Defined.

(** Witness of C5: page 3/10 linked as record 0 and again as record 1
    on the formatted board. *)
Lemma LinkPage_last_write_wins_witness :
  let s1 := LinkPage 3 16 0 0 fresh in
  let s2 := LinkPage 3 16 1 1 s1 in
  (reachable (not_exhausted MAXNODES) fresh [] /\
   Z.of_nat (length (@nil Z)) + 2 <= MAXNODES /\
   0 <= 0 < 65536 /\ 0 <= 1 < 65536 /\ 0 <> 1) /\
  Lookup 3 16 s2 = fst (NewNode s1) /\
  Lookup 3 16 s2 <> Lookup 3 16 s1 /\
  pageindex (GetNode (Lookup 3 16 s2) s2) = 1 /\
  pageindex (GetNode (Lookup 3 16 s2) s2) <> 0.
Proof.
  intros s1 s2.
  assert (R : reachable (not_exhausted MAXNODES) fresh [])
    by apply reach_Format.
  assert (Hroom : Z.of_nat (length (@nil Z)) + 2 <= MAXNODES)
    by (unfold MAXNODES; simpl; lia).
  split; [repeat split; try lia; assumption|].
  destruct (LinkPage_last_write_wins _ _ _ _ _ _ _ _ small_header_ok
              fresh [] 3 16 0 0 1 1 R Hroom ltac:(lia) ltac:(lia) ltac:(lia))
    as (_ & A & B & _ & _ & C & D & _).
  split; [exact A|]. split; [exact B|]. split; [exact C | exact D].
Defined.

(** Witness of C9: page 3/10 is linked again while its cell refers to
    node 0 and node 1 is free. *)
Lemma LinkPage_frame_witness :
  (0 <= sFreeList one_page < MAXNODES /\
   0 <= Lookup 3 16 one_page < MAXNODES /\
   Lookup 3 16 one_page <> fst (NewNode one_page)) /\
  GetNode (Lookup 3 16 one_page) (LinkPage 3 16 0 1 one_page)
    = GetNode (Lookup 3 16 one_page) one_page.
Proof.
  destruct one_page_state as (E1 & E2 & _).
  assert (H1 : 0 <= sFreeList one_page < MAXNODES)
    by (rewrite E1; unfold MAXNODES; lia).
  assert (H2 : 0 <= Lookup 3 16 one_page < MAXNODES)
    by (rewrite E2; unfold MAXNODES; lia).
  assert (H3 : Lookup 3 16 one_page <> fst (NewNode one_page))
    by (vm_compute; discriminate).
  split; [auto|].
  apply (LinkPage_frame MAXNODES PAGEARRAYSIZE NULLPTR NULLNODE FREENODE
           sizeof_DISPLAYNODE node_bytes bytes_node small_header_ok
           one_page 3 16 0 1 H1 H2 H3).
Defined.


(** Witness of C4: the small board after one page was linked. *)
Lemma pool_ownership_witness :
  reachable (not_exhausted MAXNODES) one_page [fst (NewNode fresh)] /\
  NoDup [fst (NewNode fresh)] /\
  (forall mag page i,
     in_list one_page (Lookup mag page one_page) i ->
     In i [fst (NewNode fresh)]) /\
  (not_exhausted MAXNODES [fst (NewNode fresh)] ->
   ~ In (fst (NewNode one_page)) [fst (NewNode fresh)] /\
   forall mag page,
     ~ in_list one_page (Lookup mag page one_page) (fst (NewNode one_page))).
Proof.
  assert (R : reachable (not_exhausted MAXNODES) one_page
                [fst (NewNode fresh)]).
  { apply reach_LinkPage; [apply reach_Format|].
    unfold not_exhausted, MAXNODES. simpl. lia. }
  split; [exact R|].
  destruct (pool_ownership MAXNODES PAGEARRAYSIZE NULLPTR NULLNODE FREENODE
              sizeof_DISPLAYNODE node_bytes bytes_node small_header_ok
              one_page [fst (NewNode fresh)] R)
    as (H1 & _ & _ & H4 & _ & H6).
  split; [exact H1|]. split; [exact H4 | exact H6].
Defined.

(** Two pages, one line each, and their index. *)
Abbreviation pages_all :=
  ("PN,31000" ++ nl ++ "PN,41200" ++ nl)%string.
Abbreviation pages_idx := [mkIxRec 0 9; mkIxRec 9 9].
Abbreviation pages_hs := [Page.mkPage 3 16 0; Page.mkPage 4 18 0].

(** The two pages are well-formed records with the keys 3/10 and 4/12. *)
Lemma pages_keys :
  Forall2 (key_at ParseLine 2 pages_all) pages_idx [(3, 16); (4, 18)].
Proof.
  repeat constructor; try (vm_compute; discriminate);
    intros p; exists 1%nat;
    (split; [lia|]);
    (split; [intros [|j] Hj; [reflexivity | lia]|]);
    (split; [vm_compute; reflexivity|]);
    (split; [vm_compute; reflexivity | discriminate]).
Qed.

(** Witness of C2: the two pages are found under their positions. *)
Lemma ingestion_roundtrip_witness :
  (Forall2 (key_at ParseLine 2 pages_all) pages_idx [(3, 16); (4, 18)] /\
   (forall m pg, In (m, pg) [(3, 16); (4, 18)] ->
      1 <= m <= 8 /\ 0 <= pg <= 255) /\
   NoDup [(3, 16); (4, 18)] /\
   Z.of_nat (length pages_idx) <= MAXNODES) /\
  exists s',
    ScanPageList 2 (Some pages_idx) (Some pages_all) page0 fresh
      = Some (0, s') /\
    forall i m pg, nth_error [(3, 16); (4, 18)] i = Some (m, pg) ->
      pageindex (GetNode (Lookup m pg s') s') = Z.of_nat i.
Proof.
  assert (H2 : forall m pg, In (m, pg) [(3, 16); (4, 18)] ->
             1 <= m <= 8 /\ 0 <= pg <= 255).
  { intros m pg [E|[E|[]]]; injection E as <- <-; lia. }
  assert (H3 : NoDup [(3, 16); (4, 18)]).
  { repeat constructor; simpl; intuition discriminate. }
  assert (H4 : Z.of_nat (length pages_idx) <= MAXNODES)
    by (unfold MAXNODES; simpl; lia).
  split; [split; [exact pages_keys | auto]|].
  apply (ingestion_roundtrip _ _ _ _ _ _ _ _ ParseLine small_header_ok
           2%nat pages_idx pages_all page0 blank [(3, 16); (4, 18)]
           pages_keys H2 H3 H4).
Defined.

(** A page whose first line is no header: the record of six bytes ends
    before the header line. *)
Abbreviation titled_all := ("TITLE" ++ nl ++ "PN,31000" ++ nl)%string.
Abbreviation titled_rec := (mkIxRec 0 6).
Abbreviation titled_start :=
  (set_mag 9 page0, f_lseek (mkFIL titled_all 0) (seekptr titled_rec)).

(** Witness of C7: the header is the second line that is read. *)
Lemma header_loop_stops_at_first_header_witness :
  ((forall j, (j < 2)%nat ->
      Page.mag (fst (parse_n ParseLine j titled_start)) = 9) /\
   Page.mag (fst (parse_n ParseLine 2 titled_start)) <> 9 /\
   (2 < 3)%nat) /\
  header_loop ParseLine 3 (set_mag 9 page0)
    (f_lseek (mkFIL titled_all 0) (seekptr titled_rec))
    = Some (parse_n ParseLine 2 titled_start).
Proof.
  assert (H1 : forall j, (j < 2)%nat ->
             Page.mag (fst (parse_n ParseLine j titled_start)) = 9).
  { intros [|[|j]] Hj; [reflexivity | reflexivity | lia]. }
  assert (H2 : Page.mag (fst (parse_n ParseLine 2 titled_start)) <> 9)
    by (vm_compute; discriminate).
  assert (H3 : (2 < 3)%nat) by lia.
  split; [auto|].
  apply (header_loop_stops_at_first_header PAGEARRAYSIZE NULLPTR NULLNODE
           sizeof_DISPLAYNODE node_bytes bytes_node ParseLine
           2%nat 3%nat titled_rec page0 (mkFIL titled_all 0) H1 H2 H3).
Defined.

(** Counterexample to C7.  The record of six bytes holds no header; the
    loop reads on into the bytes behind it, the scan succeeds with the
    header found there and links it as record 0.  When the file holds no
    header at all, no amount of fuel ends the loop. *)
Lemma header_scan_runs_past_record :
  (exists p' f',
     header_loop ParseLine 3 (set_mag 9 page0)
       (f_lseek (mkFIL titled_all 0) (seekptr titled_rec)) = Some (p', f') /\
     Page.mag p' = 3 /\
     seekptr titled_rec + pagesize titled_rec < Z.of_nat (fptr f')) /\
  (exists s',
     ScanPageList 3 (Some [titled_rec]) (Some titled_all) page0 fresh
       = Some (0, s') /\
     Lookup 3 16 s' <> NULLPTR /\
     pageindex (GetNode (Lookup 3 16 s') s') = 0) /\
  (forall fuel,
     ScanPageList fuel (Some [titled_rec]) (Some ("TITLE" ++ nl)%string)
       page0 fresh = None).
Proof.
  split; [|split].
  - eexists. eexists. split; [vm_compute; reflexivity|].
    split; [reflexivity | vm_compute; reflexivity].
  - eexists. split; [unfold ScanPageList; rewrite page_loop_headers;
                     vm_compute headers; reflexivity|].
    split; [vm_compute; discriminate | vm_compute; reflexivity].
  - intros fuel. unfold ScanPageList. rewrite page_loop_headers.
    cbn [headers].
    set (pf := (set_mag 9 page0,
                f_lseek (mkFIL ("TITLE" ++ nl)%string 0) (seekptr titled_rec))).
    change (set_mag 9 page0) with (fst pf).
    change (f_lseek _ _) with (snd pf).
    rewrite (header_loop_never ParseLine); [reflexivity|].
    assert (Hfix : forall j, exists f,
               parse_n ParseLine j pf = (set_mag 9 page0, f) /\
               parse_next ParseLine (set_mag 9 page0, f)
                 = (set_mag 9 page0, mkFIL ("TITLE" ++ nl)%string 6)).
    { induction j as [|j (f & E1 & E2)].
      - eexists. split; [reflexivity | vm_compute; reflexivity].
      - exists (mkFIL ("TITLE" ++ nl)%string 6).
        split; [|vm_compute; reflexivity].
        clear E2 E1 f. revert pf. induction j as [|j IH]; intros pf.
        + vm_compute. reflexivity.
        + cbn [parse_n]. cbn [parse_n] in IH. apply IH. }
    intros j. destruct (Hfix j) as (f & E & _). now rewrite E.
Qed.

(** Counterexample to C4.  On the pool of two nodes, after two pages
    were linked, [NewNode] returns node 0, to which the cell of page
    3/10 refers. *)
Lemma allocate_returns_linked_node :
  ~ (forall s A, reachable always s A ->
     forall mag page,
       ~ in_list s (Lookup mag page s) (fst (NewNode s))).
Proof.
  intros H. apply (H two_pages _ two_pages_reachable 3 16).
  destruct two_pages_state as (_ & E & _). rewrite E.
  replace (fst (NewNode two_pages)) with 0 by (vm_compute; reflexivity).
  apply in_list_here. unfold NULLPTR. lia.
Qed.

(** Counterexample to C9.  With both nodes of the pool linked, linking
    page 3/10 once more hands out node 0 again: the record to which the
    cell referred is rewritten. *)
Lemma LinkPage_rewrites_linked_node :
  (exists A, reachable always two_pages A) /\
  Lookup 3 16 two_pages <> NULLPTR /\
  GetNode (Lookup 3 16 two_pages) (LinkPage 3 16 0 2 two_pages)
    <> GetNode (Lookup 3 16 two_pages) two_pages.
Proof.
  split; [eexists; apply two_pages_reachable|].
  split; vm_compute; discriminate.
Qed.

(** *** Runs for the further properties *)

Abbreviation ReturnToFreeList :=
  (ReturnToFreeList PAGEARRAYSIZE FREENODE sizeof_DISPLAYNODE node_bytes).
Abbreviation InitDisplayList :=
  (InitDisplayList MAXNODES PAGEARRAYSIZE NULLPTR NULLNODE FREENODE
     sizeof_DISPLAYNODE node_bytes bytes_node ParseLine).
Abbreviation out_of_nodes :=
  (out_of_nodes PAGEARRAYSIZE NULLNODE sizeof_DISPLAYNODE bytes_node).
Abbreviation link_all :=
  (link_all PAGEARRAYSIZE NULLPTR NULLNODE sizeof_DISPLAYNODE node_bytes
     bytes_node).

(** Witness of X1: a node written to slot 1 of the formatted board. *)
Lemma SetNode_GetNode_roundtrip_witness :
  wf_node (mkNode 7 NULLPTR 3) /\
  GetNode 1 (SetNode (mkNode 7 NULLPTR 3) 1 fresh) = mkNode 7 NULLPTR 3.
Proof.
  assert (H : wf_node (mkNode 7 NULLPTR 3))
    by (unfold wf_node, NULLPTR; simpl; lia).
  split; [exact H|].
  exact (proj1 (SetNode_GetNode_roundtrip _ _ _ _ _ _ _ _ small_header_ok
                  (mkNode 7 NULLPTR 3) 1 fresh H)).
Defined.

(** Witness of X2: a pointer written to the cell at address 10. *)
Lemma SetNodePtr_GetNodePtr_roundtrip_witness :
  header_ok /\
  GetNodePtr 10 (SetNodePtr 65537 10 fresh) = uint16 65537.
Proof.
  split; [exact small_header_ok|].
  exact (proj1 (SetNodePtr_GetNodePtr_roundtrip _ _ _ _ _ _ _ _
                  small_header_ok 65537 10 fresh)).
Defined.

(** Witness of X3: the board with two pages is formatted again. *)
Lemma MakeFreeList_resets_everything_witness :
  header_ok /\
  sFreeList (MakeFreeList two_pages) = 0 /\
  (forall mag page, Lookup mag page (MakeFreeList two_pages) = NULLPTR).
Proof.
  split; [exact small_header_ok|].
  destruct (MakeFreeList_resets_everything _ _ _ _ _ _ _ _ small_header_ok
              two_pages) as (H1 & H2 & _).
  split; [exact H1 | exact H2].
Defined.

(** Witness of X4: node 1 is released on the formatted board. *)
Lemma ReturnToFreeList_then_NewNode_witness :
  (0 <= 1 < MAXNODES /\ 0 <= sFreeList fresh < 65536) /\
  out_of_nodes (ReturnToFreeList 1 fresh) = false /\
  fst (NewNode (ReturnToFreeList 1 fresh)) = 1 /\
  sFreeList (snd (NewNode (ReturnToFreeList 1 fresh))) = sFreeList fresh.
Proof.
  assert (H1 : 0 <= 1 < MAXNODES) by (unfold MAXNODES; lia).
  assert (H2 : 0 <= sFreeList fresh < 65536) by (rewrite fresh_head; lia).
  split; [auto|].
  destruct (ReturnToFreeList_then_NewNode _ _ _ _ _ _ _ _ small_header_ok
              1 fresh H1 H2) as (A & B & C & _).
  auto.
Defined.

(** Witness of X5: node 0 is released while the cell of page 3/10
    refers to it. *)
Lemma ReturnToFreeList_keeps_cell_witness :
  (0 <= 0 < MAXNODES /\ 0 <= sFreeList one_page < 65536 /\
   Lookup 3 16 one_page = 0) /\
  Lookup 3 16 (ReturnToFreeList 0 one_page) = 0 /\
  GetNode 0 (ReturnToFreeList 0 one_page)
    = mkNode 0 (sFreeList one_page) FREENODE /\
  fst (NewNode (ReturnToFreeList 0 one_page))
    = Lookup 3 16 (ReturnToFreeList 0 one_page).
Proof.
  destruct one_page_state as (E1 & E2 & _).
  assert (H1 : 0 <= 0 < MAXNODES) by (unfold MAXNODES; lia).
  assert (H2 : 0 <= sFreeList one_page < 65536) by (rewrite E1; lia).
  split; [auto|].
  apply (ReturnToFreeList_keeps_cell _ _ _ _ _ _ _ _ small_header_ok
           0 one_page 3 16 H1 H2 E2).
Defined.

(** Witness of X6: node 1 is released twice. *)
Lemma ReturnToFreeList_twice_loops_witness :
  0 <= 1 < MAXNODES /\
  fst (NewNode_calls 5 (ReturnToFreeList 1 (ReturnToFreeList 1 fresh)))
    = repeat (false, 1) 5.
Proof.
  assert (H1 : 0 <= 1 < MAXNODES) by (unfold MAXNODES; lia).
  split; [exact H1|].
  apply (ReturnToFreeList_twice_loops _ _ _ _ _ _ _ _ small_header_ok
           1 fresh 5%nat H1).
Defined.

(** Witness of X7: neither file can be opened. *)
Lemma InitDisplayList_without_pages_witness :
  (@None (list PAGEINDEXRECORD) = None \/ @None string = None \/
   @None (list PAGEINDEXRECORD) = Some []) /\
  exists code s',
    InitDisplayList 1 None None page0 two_pages = Some (code, s') /\
    code = 1 /\
    sFreeList s' = 0 /\
    (forall mag page, Lookup mag page s' = NULLPTR) /\
    (forall j, 0 <= j < MAXNODES -> subpage (GetNode j s') = FREENODE).
Proof.
  assert (H : @None (list PAGEINDEXRECORD) = None \/ @None string = None \/
              @None (list PAGEINDEXRECORD) = Some []) by (left; reflexivity).
  split; [exact H|].
  apply (InitDisplayList_without_pages _ _ _ _ _ _ _ _ ParseLine
           small_header_ok 1%nat None None page0 two_pages H).
Defined.

(** Witness of X8: the scan of the two pages. *)
Lemma ScanPageList_links_each_record_witness :
  ScanPageList 2 (Some pages_idx) (Some pages_all) page0 fresh
    = Some (0, link_all pages_hs 0 fresh) /\
  exists hs,
    headers ParseLine 2 pages_idx page0 (mkFIL pages_all 0) = Some hs /\
    length hs = length pages_idx /\
    link_all pages_hs 0 fresh = link_all hs 0 fresh /\
    forall h, In h hs -> Page.mag h <> 9.
Proof.
  assert (H : ScanPageList 2 (Some pages_idx) (Some pages_all) page0 fresh
              = Some (0, link_all pages_hs 0 fresh)).
  { unfold ScanPageList. rewrite page_loop_headers.
    vm_compute headers. reflexivity. }
  split; [exact H|].
  apply (ScanPageList_links_each_record PAGEARRAYSIZE NULLPTR NULLNODE
           sizeof_DISPLAYNODE node_bytes bytes_node ParseLine 2%nat pages_idx
           pages_all page0 fresh 0 (link_all pages_hs 0 fresh) H).
Defined.

(** Page 3/10 twice, as subpage 0 and as subpage 1. *)
Abbreviation twice_all := ("PN,31000" ++ nl ++ "PN,31001" ++ nl)%string.
Abbreviation twice_hs := [Page.mkPage 3 16 0; Page.mkPage 3 16 1].

(** Witness of X9: the second record of page 3/10 is the one the cell
    leads to. *)
Lemma scan_last_record_wins_witness :
  (headers ParseLine 2 pages_idx page0 (mkFIL twice_all 0) = Some twice_hs /\
   Z.of_nat (length pages_idx) <= MAXNODES) /\
  exists s',
    ScanPageList 2 (Some pages_idx) (Some twice_all) page0 fresh
      = Some (0, s') /\
    forall i h, nth_error twice_hs i = Some h ->
      (forall j h', (i < j)%nat -> nth_error twice_hs j = Some h' ->
         cell_of h' <> cell_of h) ->
      GetNode (Lookup (Page.mag h) (Page.page h) s') s'
      = mkNode (Z.of_nat i) NULLPTR (uint8 (Page.subpage h)).
Proof.
  assert (H1 : headers ParseLine 2 pages_idx page0 (mkFIL twice_all 0)
               = Some twice_hs) by (vm_compute; reflexivity).
  assert (H2 : Z.of_nat (length pages_idx) <= MAXNODES)
    by (unfold MAXNODES; simpl; lia).
  split; [auto|].
  apply (scan_last_record_wins _ _ _ _ _ _ _ _ ParseLine small_header_ok
           2%nat pages_idx twice_all page0 blank twice_hs H1 H2).
Defined.

(** Witness of X10: the two pages fill the pool of two nodes. *)
Lemma scan_fills_nodes_in_order_witness :
  (headers ParseLine 2 pages_idx page0 (mkFIL pages_all 0) = Some pages_hs /\
   Z.of_nat (length pages_idx) <= MAXNODES) /\
  exists s',
    ScanPageList 2 (Some pages_idx) (Some pages_all) page0 fresh
      = Some (0, s') /\
    (forall i h, nth_error pages_hs i = Some h ->
       GetNode (Z.of_nat i) s'
       = mkNode (Z.of_nat i) NULLPTR (uint8 (Page.subpage h))) /\
    sFreeList s'
      = (if Z.of_nat (length pages_idx) =? MAXNODES then 0
         else Z.of_nat (length pages_idx)) /\
    (forall j, Z.of_nat (length pages_idx) <= j < MAXNODES ->
       subpage (GetNode j s') = FREENODE).
Proof.
  assert (H1 : headers ParseLine 2 pages_idx page0 (mkFIL pages_all 0)
               = Some pages_hs) by (vm_compute; reflexivity).
  assert (H2 : Z.of_nat (length pages_idx) <= MAXNODES)
    by (unfold MAXNODES; simpl; lia).
  split; [auto|].
  apply (scan_fills_nodes_in_order _ _ _ _ _ _ _ _ ParseLine small_header_ok
           2%nat pages_idx pages_all page0 blank pages_hs H1 H2).
Defined.

(** Three pages for the pool of two nodes. *)
Abbreviation three_all :=
  ("PN,31000" ++ nl ++ "PN,41200" ++ nl ++ "PN,51300" ++ nl)%string.
Abbreviation three_idx := [mkIxRec 0 9; mkIxRec 9 9; mkIxRec 18 9].

(** Witness of X11: the third page lands in node 0. *)
Lemma scan_overflow_reuses_node_0_witness :
  (headers ParseLine 2 three_idx page0 (mkFIL three_all 0)
     = Some (pages_hs ++ [Page.mkPage 5 19 0]) /\
   Z.of_nat (length pages_hs) = MAXNODES) /\
  exists s',
    ScanPageList 2 (Some three_idx) (Some three_all) page0 fresh
      = Some (0, s') /\
    Lookup 5 19 s' = 0 /\
    GetNode 0 s' = mkNode MAXNODES NULLPTR (uint8 0) /\
    Lookup 3 16 s' = 0.
Proof.
  assert (H1 : headers ParseLine 2 three_idx page0 (mkFIL three_all 0)
               = Some (pages_hs ++ [Page.mkPage 5 19 0]))
    by (vm_compute; reflexivity).
  assert (H2 : Z.of_nat (length pages_hs) = MAXNODES) by reflexivity.
  assert (H3 : forall j h', (0 < j)%nat ->
             nth_error (pages_hs ++ [Page.mkPage 5 19 0]) j = Some h' ->
             cell_of h' <> cell_of (Page.mkPage 3 16 0)).
  { intros [|[|[|j]]] h' Hj Hnth.
    - lia.
    - injection Hnth as <-. vm_compute. discriminate.
    - injection Hnth as <-. vm_compute. discriminate.
    - destruct j; discriminate. }
  split; [auto|].
  destruct (scan_overflow_reuses_node_0 _ _ _ _ _ _ _ _ ParseLine
              small_header_ok 2%nat three_idx three_all page0 blank
              pages_hs (Page.mkPage 5 19 0) H1 H2) as (s' & A & B & C & D).
  exists s'. split; [exact A|]. split; [exact B|]. split; [exact C|].
  exact (D (Page.mkPage 3 16 0) eq_refl H3).
Defined.

(** Witness of X12: pages 3/10 and 4/12. *)
Lemma cellAddress_injective_witness :
  (1 <= 3 <= 8 /\ 0 <= 16 <= 255 /\ 1 <= 4 <= 8 /\ 0 <= 18 <= 255) /\
  (cellAddress 3 16 = cellAddress 4 18 -> 3 = 4 /\ 16 = 18) /\
  cellIndex (3 + 8) 16 = cellIndex 3 16.
Proof.
  split; [lia|].
  destruct (cellAddress_injective 3 16 4 18 ltac:(lia) ltac:(lia) ltac:(lia)
              ltac:(lia)) as (A & _ & C & _).
  split; [exact A | exact C].
Defined.

(** Witness of X13: a page is linked on the board on which only the
    terminator was written. *)
Lemma LinkPage_overwrites_terminator_witness :
  let s := SetNode (mkNode 0 0 NULLNODE) 0 blank in
  (0 <= sFreeList s < MAXNODES /\
   subpage (GetNode (sFreeList s) s) = NULLNODE /\
   uint8 0 <> NULLNODE) /\
  out_of_nodes (LinkPage 3 16 0 0 s) = false /\
  fst (NewNode (LinkPage 3 16 0 0 s)) = sFreeList s /\
  sFreeList (snd (NewNode (LinkPage 3 16 0 0 s))) = NULLPTR.
Proof.
  intros s.
  assert (H1 : 0 <= sFreeList s < MAXNODES) by (unfold MAXNODES; simpl; lia).
  assert (H2 : subpage (GetNode (sFreeList s) s) = NULLNODE)
    by (vm_compute; reflexivity).
  assert (H3 : uint8 0 <> NULLNODE) by (vm_compute; discriminate).
  split; [auto|].
  destruct (LinkPage_overwrites_terminator _ _ _ _ _ _ _ _ small_header_ok
              s 3 16 0 0 H1 H2 H3) as (_ & _ & C & D & E).
  auto.
Defined.

(** Counterexample to C2.  Three well-formed records with distinct keys
    on the pool of two nodes: the scan returns 0, and the cell of the
    first key leads to a node with page index 2, not 0. *)
Lemma ingestion_overflows_pool :
  Forall2 (key_at ParseLine 2 three_all) three_idx
    [(3, 16); (4, 18); (5, 19)] /\
  NoDup [(3, 16); (4, 18); (5, 19)] /\
  exists s',
    ScanPageList 2 (Some three_idx) (Some three_all) page0 fresh
      = Some (0, s') /\
    nth_error [(3, 16); (4, 18); (5, 19)] 0 = Some (3, 16) /\
    pageindex (GetNode (Lookup 3 16 s') s') = 2 /\
    pageindex (GetNode (Lookup 3 16 s') s') <> Z.of_nat 0.
Proof.
  split; [|split].
  - repeat constructor; try (vm_compute; discriminate);
      intros p; exists 1%nat;
      (split; [lia|]);
      (split; [intros [|j] Hj; [reflexivity | lia]|]);
      (split; [vm_compute; reflexivity|]);
      (split; [vm_compute; reflexivity | discriminate]).
  - repeat constructor; simpl; intuition discriminate.
  - eexists. split; [unfold ScanPageList; rewrite page_loop_headers;
                     vm_compute headers; reflexivity|].
    split; [reflexivity|].
    split; [vm_compute; reflexivity | vm_compute; discriminate].
Qed.

(** The small board after a third page was linked: both nodes are in
    use and the free list head has left the pool. *)
Abbreviation used_up := (LinkPage 3 16 0 2 two_pages).

(** Counterexample to C5.  On the used-up board, reached by [LinkPage]
    alone, page 8/FF is linked as record 5 and again as record 6: the
    node to which its cell then leads does not carry record number 6. *)
Lemma LinkPage_on_used_up_pool :
  (exists A, reachable always used_up A) /\
  Lookup 8 255 (LinkPage 8 255 0 6 (LinkPage 8 255 0 5 used_up)) = 255 /\
  pageindex
    (GetNode (Lookup 8 255 (LinkPage 8 255 0 6 (LinkPage 8 255 0 5 used_up)))
       (LinkPage 8 255 0 6 (LinkPage 8 255 0 5 used_up))) <> 6.
Proof.
  split; [|split].
  - eexists. apply reach_LinkPage; [apply two_pages_reachable | exact I].
  - vm_compute. reflexivity.
  - vm_compute. discriminate.
Qed.

End OnSmall.
